(** * jira-utils: [find_and_replace] (utils.py)

    A shallow embedding of the bulk find-and-replace routine of
    [utils.py] and the properties of its control flow: the pre-flight
    compilation of the tests, the per-issue test loop, the literal
    replacement and the tallies.

    Python values are modelled as follows.
    - [str] is [string]; [str.replace] is [str_replace] below.
    - [issue.fields] is a finite map from attribute names to values
      ([gmap string pyval]); [dir(issue.fields)] is its domain and
      [getattr(issue.fields, n)] is a lookup.
    - the [changes] dict is an association list kept in insertion order,
      as Python dicts are.
    - the regex engine ([re.compile], [Pattern.search]) and the ticket
      store ([jira.search_issues], [issue.update]) are external: they are
      the fields of the record [Externals], over which the routine and
      every general statement are parametrised.
    - output and remote calls are recorded in a trace of [event]s; an
      uncaught exception ends the run with [Raised]. *)

From Stdlib Require Import String Ascii List Arith Lia Bool.
From stdpp Require Import base option gmap strings list.

Import ListNotations.
Local Open Scope string_scope.
Local Open Scope list_scope.

(** ** Python strings *)

Module PyStr.

(** [s.startswith(p)], with the remainder of [s] after [p]. *)
Fixpoint strip_prefix (p s : string) : option string :=
  match p with
  | EmptyString => Some s
  | String a p' =>
      match s with
      | EmptyString => None
      | String b s' => if Ascii.eqb a b then strip_prefix p' s' else None
      end
  end.

Definition startswith (s p : string) : bool :=
  match strip_prefix p s with Some _ => true | None => false end.

(** [old in s] *)
Fixpoint contains (s old : string) : bool :=
  startswith s old ||
  match s with
  | EmptyString => false
  | String _ s' => contains s' old
  end.

(** The scan of [s.replace(old, new)] for a non-empty [old]: left to
    right, non-overlapping.  [skip] counts the characters of a matched
    occurrence of [old] that are still to be passed over. *)
Fixpoint replace_scan (skip : nat) (s old new : string) : string :=
  match s with
  | EmptyString => EmptyString
  | String c s' =>
      match skip with
      | S k => replace_scan k s' old new
      | O =>
          if startswith s old
          then String.append new (replace_scan (String.length old - 1) s' old new)
          else String c (replace_scan 0 s' old new)
      end
  end.

(** [s.replace("", new)]: [new] goes before every character and at the end. *)
Fixpoint interleave (s new : string) : string :=
  match s with
  | EmptyString => new
  | String c s' => String.append new (String c (interleave s' new))
  end.

(** [s.replace(old, new)] *)
Definition str_replace (s old new : string) : string :=
  match old with
  | EmptyString => interleave s new
  | String _ _ => replace_scan 0 s old new
  end.

(** [old] occurs in [s] as a contiguous substring. *)
Definition occurs (old s : string) : Prop :=
  exists a b, s = String.append a (String.append old b).

End PyStr.

Import PyStr.

(** ** Values, issues and rules *)

(** A field value: the code only asks [isinstance(v, str)]. *)
Inductive pyval : Type :=
| PyStr (s : string)
| PyOther.          (* None, numbers, nested resources, ... *)

(** An issue handle: its key and the attributes of [issue.fields], all
    those [dir] lists. *)
Record Issue : Type := {
  key : string;
  fields : gmap string pyval
}.

(** An entry of [replacements]: [{'field_name', 'old', 'new'}]. *)
Record Replacement : Type := {
  rep_field_name : string;
  rep_old : string;
  rep_new : string
}.

(** An entry of [additional_tests]: [{'field_name', 'regex'}]; the code
    asks ['regex' in test], so the key may be absent. *)
Record Test : Type := {
  test_field_name : string;
  test_regex : option string
}.

(** The five counters of lines 31-35 (the spec's RunSummary). *)
Record Tallies : Type := {
  selected_issues : nat;
  issues_failed_tests : nat;
  changed_issues : nat;
  unchanged_issues : nat;
  failed_issues : nat
}.

Definition incr_failed_tests (t : Tallies) : Tallies :=
  {| selected_issues := selected_issues t;
     issues_failed_tests := issues_failed_tests t + 1;
     changed_issues := changed_issues t;
     unchanged_issues := unchanged_issues t;
     failed_issues := failed_issues t |}.

Definition incr_changed (t : Tallies) : Tallies :=
  {| selected_issues := selected_issues t;
     issues_failed_tests := issues_failed_tests t;
     changed_issues := changed_issues t + 1;
     unchanged_issues := unchanged_issues t;
     failed_issues := failed_issues t |}.

Definition incr_unchanged (t : Tallies) : Tallies :=
  {| selected_issues := selected_issues t;
     issues_failed_tests := issues_failed_tests t;
     changed_issues := changed_issues t;
     unchanged_issues := unchanged_issues t + 1;
     failed_issues := failed_issues t |}.

Definition initial_tallies (n : nat) : Tallies :=
  {| selected_issues := n;
     issues_failed_tests := 0;
     changed_issues := 0;
     unchanged_issues := 0;
     failed_issues := 0 |}.

(** The sum of the four outcome counters. *)
Definition outcomes (t : Tallies) : nat :=
  issues_failed_tests t + changed_issues t + unchanged_issues t + failed_issues t.

(** ** Exceptions, output and results *)

Inductive exn : Type :=
| NameError (name : string)        (* an unbound global *)
| AttributeError (attr : string)   (* getattr on an object without attr *)
| TypeError                        (* Pattern.search on a non-string *)
| OverflowError                    (* re.compile on a repeat count too large *)
| RecursionError                   (* re.compile on a pattern nested too deep *)
| StoreError (detail : string).    (* raised by the ticket store *)

Inductive res (A : Type) : Type :=
| Ok (a : A)
| Raise (e : exn).
Arguments Ok {A} a.
Arguments Raise {A} e.

(** How [re.compile] ends on a pattern: with a matcher, with [re.error]
    (which is [sre_constants.error], the one exception line 23 catches),
    or with another exception, which line 23 lets through. *)
Inductive compilation (R : Type) : Type :=
| Compiled (r : R)
| ReError
| Uncaught (e : exn).
Arguments Compiled {R} r.
Arguments ReError {R}.
Arguments Uncaught {R} e.

Definition changeset : Type := list (string * string).

(** The texts the routine formats, by source line. *)
Inductive message : Type :=
| MsgRegexFailed (field regex : string)                (* line 24 *)
| MsgNoRegex (field : string)                          (* line 27 *)
| MsgEvaluating (selected : nat)                       (* line 36 *)
| MsgEvaluatingIssue (issue_key : string)              (* line 38 *)
| MsgMissingTestField (issue_key field : string)       (* line 43 *)
| MsgMissingFields (issue_key : string) (missing : list string) (* line 58 *)
| MsgSkippingIssue (issue_key : string)                (* line 59 *)
| MsgNonStr (issue_key field : string)                 (* line 72 *)
| MsgDryRun (issue_key : string) (changes : changeset) (* line 78 *)
| MsgUpdated (issue_key : string) (names : list string) (* line 83 *)
| MsgUpdateFailed                                      (* line 86 *)
| MsgSummary (t : Tallies).                            (* line 90 *)

Inductive event : Type :=
| EvSearch (jql : string)                        (* jira.search_issues *)
| EvUpdate (issue_key : string) (changes : changeset) (* issue.update *)
| EvPrint (m : message)                          (* print: stdout *)
| EvStderr (m : message).                        (* sys.stderr.write *)

(** How a call of [find_and_replace] ends.  Python's [None] is [None]. *)
Inductive outcome : Type :=
| Returned (v : option Tallies)
| Raised (e : exn).

(** The module imports [jira.JIRA], [re], [sre_constants] and [logging]
    and nothing else: the global [sys] is unbound, so evaluating
    [sys.stderr.write] raises [NameError] before anything is written. *)
Definition sys_unbound : exn := NameError "sys".

(** [changes[k] = v] on an insertion-ordered dict. *)
Fixpoint dict_set (d : changeset) (k v : string) : changeset :=
  match d with
  | [] => [(k, v)]
  | (k', v') :: d' =>
      if String.eqb k k' then (k, v) :: d' else (k', v') :: dict_set d' k v
  end.

(** ** Attributes of a Python list

    Line 39 binds [issue_fields = dir(issue.fields)], a list of names, and
    line 46 reads [getattr(issue_fields, name)]: an attribute of that list
    object. *)

Definition list_attributes : list string :=
  [ "__add__"; "__class__"; "__class_getitem__"; "__contains__";
    "__delattr__"; "__delitem__"; "__dir__"; "__eq__"; "__format__";
    "__ge__"; "__getattribute__"; "__getitem__"; "__getstate__"; "__gt__";
    "__hash__"; "__iadd__"; "__imul__"; "__init__"; "__init_subclass__";
    "__iter__"; "__le__"; "__len__"; "__lt__"; "__mul__"; "__ne__";
    "__new__"; "__reduce__"; "__reduce_ex__"; "__repr__"; "__reversed__";
    "__rmul__"; "__setattr__"; "__setitem__"; "__sizeof__"; "__str__";
    "__subclasshook__"; "append"; "clear"; "copy"; "count"; "extend";
    "index"; "insert"; "pop"; "remove"; "reverse"; "sort" ].

(** [getattr(l, name)] for a list [l]: [__doc__] is the only attribute
    that is a string (its text, [list_doc], depends on the interpreter). *)
Definition getattr_list (list_doc name : string) : res pyval :=
  if String.eqb name "__doc__" then Ok (PyStr list_doc)
  else if existsb (String.eqb name) list_attributes then Ok PyOther
  else Raise (AttributeError name).

(** ** The outside world

    The regex engine: [re.compile], with the three ways it can end, and
    [Pattern.search] on a string.  The text of
    [list.__doc__].  The ticket store behind the [jira] handle, with its
    state: [jira.search_issues(jql, maxResults=0)] and [issue.update]
    (called with the change-set as keyword arguments); [inl] and [Some]
    carry the error the store raises. *)

Record Externals : Type := {
  regex : Type;
  re_compile : string -> compilation regex;
  re_search : regex -> string -> bool;
  list_doc : string;
  Store : Type;
  search_issues : Store -> string -> Store * (string + list Issue);
  issue_update : Store -> Issue -> changeset -> Store * option string
}.

(** ** The routine *)

Section Run.

Variable X : Externals.

(** Lines 19-28: compile every test, in order.  Both error branches call
    [sys.stderr.write] first, so neither reaches its [return]; an
    exception of [re.compile] other than [re.error] is not caught. *)
Fixpoint precompile (additional_tests : list Test) : res (list (string * regex X)) :=
  match additional_tests with
  | [] => Ok []
  | test :: rest =>
      match test_regex test with
      | Some pattern =>
          match re_compile X pattern with
          | Compiled compiled =>
              match precompile rest with
              | Ok cs => Ok ((test_field_name test, compiled) :: cs)
              | Raise e => Raise e
              end
          | ReError => Raise sys_unbound         (* line 24 *)
          | Uncaught e => Raise e                (* line 22 *)
          end
      | None => Raise sys_unbound                (* line 27 *)
      end
  end.

(** [name in dir(issue.fields)] *)
Definition in_issue_fields (issue : Issue) (name : string) : bool :=
  bool_decide (name ∈ dom (fields issue)).

(** Lines 40-49: the test loop of one issue; [Ok b] is [tests_passed]. *)
Fixpoint run_tests (issue : Issue) (tests : list (string * regex X)) : res bool :=
  match tests with
  | [] => Ok true
  | (name, compiled) :: rest =>
      if negb (in_issue_fields issue name) then Raise sys_unbound  (* line 43 *)
      else
        match getattr_list (list_doc X) name with                      (* line 46 *)
        | Raise e => Raise e
        | Ok PyOther => Raise TypeError
        | Ok (PyStr text) =>
            if re_search X compiled text then run_tests issue rest
            else Ok false
        end
  end.

(** Line 55 *)
Definition replacement_fields (replacements : list Replacement) : gset string :=
  list_to_set (map rep_field_name replacements).

(** Lines 62-76: stage the changes of one issue; the messages are the
    warnings of line 72. *)
Fixpoint stage_changes (issue : Issue) (replacements : list Replacement)
    (changes : changeset) : list event * res changeset :=
  match replacements with
  | [] => ([], Ok changes)
  | replacement :: rest =>
      match fields issue !! rep_field_name replacement with
      | None => ([], Raise (AttributeError (rep_field_name replacement)))
      | Some PyOther =>
          let '(evs, r) := stage_changes issue rest changes in
          (EvPrint (MsgNonStr (key issue) (rep_field_name replacement)) :: evs, r)
      | Some (PyStr old_value) =>
          let new_value :=
            str_replace old_value (rep_old replacement) (rep_new replacement) in
          if String.eqb old_value new_value
          then stage_changes issue rest changes
          else stage_changes issue rest
                 (dict_set changes (rep_field_name replacement) new_value)
      end
  end.

(** Lines 77-89: log, commit or count the staged changes. *)
Definition apply_changes (dry_run : bool) (store : Store X) (t : Tallies)
    (issue : Issue) (changes : changeset) : list event * Store X * res Tallies :=
  match changes with
  | [] => ([], store, Ok (incr_unchanged t))                       (* line 89 *)
  | _ :: _ =>
      if dry_run
      then ([EvPrint (MsgDryRun (key issue) changes)], store, Ok t) (* line 78 *)
      else
        let '(store', r) := issue_update X store issue changes in
        match r with
        | None =>
            ([EvUpdate (key issue) changes;
              EvPrint (MsgUpdated (key issue) (map fst changes))],
             store', Ok (incr_changed t))                          (* lines 82-83 *)
        | Some _ =>
            ([EvUpdate (key issue) changes], store', Raise sys_unbound) (* line 86 *)
        end
  end.

(** Lines 38-89: the body of the loop for one issue. *)
Definition process_issue (dry_run : bool) (tests : list (string * regex X))
    (replacements : list Replacement) (store : Store X) (t : Tallies)
    (issue : Issue) : list event * Store X * res Tallies :=
  let evaluating := EvPrint (MsgEvaluatingIssue (key issue)) in
  match run_tests issue tests with
  | Raise e => ([evaluating], store, Raise e)
  | Ok false => ([evaluating], store, Ok (incr_failed_tests t))    (* lines 51-53 *)
  | Ok true =>
      if negb (bool_decide (replacement_fields replacements ⊆ dom (fields issue)))
      then ([evaluating], store, Raise sys_unbound)                (* line 58 *)
      else
        match stage_changes issue replacements [] with
        | (warnings, Raise e) => (evaluating :: warnings, store, Raise e)
        | (warnings, Ok changes) =>
            let '(evs, store', r) := apply_changes dry_run store t issue changes in
            (evaluating :: warnings ++ evs, store', r)
        end
  end.

(** Lines 37-89: the loop; an exception leaves it at once. *)
Fixpoint process_issues (dry_run : bool) (tests : list (string * regex X))
    (replacements : list Replacement) (store : Store X) (t : Tallies)
    (issues : list Issue) : list event * Store X * res Tallies :=
  match issues with
  | [] => ([], store, Ok t)
  | issue :: rest =>
      let '(evs, store', r) := process_issue dry_run tests replacements store t issue in
      match r with
      | Raise e => (evs, store', Raise e)
      | Ok t' =>
          let '(evs', store'', r') :=
            process_issues dry_run tests replacements store' t' rest in
          (evs ++ evs', store'', r')
      end
  end.

(** [find_and_replace], called with a [jira] handle on [store].  The
    function has no [return] with a value: it ends with [None]. *)
Definition find_and_replace (issue_jql : string) (replacements : list Replacement)
    (additional_tests : list Test) (dry_run : bool) (store : Store X)
    : list event * Store X * outcome :=
  match precompile additional_tests with
  | Raise e => ([], store, Raised e)
  | Ok tests =>
      let '(store1, found) := search_issues X store issue_jql in     (* line 30 *)
      match found with
      | inl detail => ([EvSearch issue_jql], store1, Raised (StoreError detail))
      | inr issues =>
          let t0 := initial_tallies (length issues) in
          let '(evs, store2, r) :=
            process_issues dry_run tests replacements store1 t0 issues in
          let head := [EvSearch issue_jql; EvPrint (MsgEvaluating (length issues))] in
          match r with
          | Raise e => (head ++ evs, store2, Raised e)
          | Ok t => (head ++ evs ++ [EvPrint (MsgSummary t)], store2, Returned None)
          end
      end
  end.

(** *** Observations on a trace *)

Definition is_search (e : event) : bool :=
  match e with EvSearch _ => true | _ => false end.

Definition is_issue_start (e : event) : bool :=
  match e with EvPrint (MsgEvaluatingIssue _) => true | _ => false end.

Definition is_summary (e : event) : bool :=
  match e with EvPrint (MsgSummary _) => true | _ => false end.

Definition is_warning (e : event) : bool :=
  match e with EvStderr _ => true | _ => false end.

(** The [issue.update] calls of a trace, in order. *)
Fixpoint update_calls (tr : list event) : list (string * changeset) :=
  match tr with
  | [] => []
  | EvUpdate k c :: tr' => (k, c) :: update_calls tr'
  | _ :: tr' => update_calls tr'
  end.

(** *** Vocabulary of the properties *)

(** A test the pre-flight rejects: no ['regex'] key, or a pattern that
    [re.compile] refuses, with [re.error] or with any other exception. *)
Definition malformed (test : Test) : Prop :=
  match test_regex test with
  | None => True
  | Some pattern =>
      match re_compile X pattern with
      | Compiled _ => False
      | ReError | Uncaught _ => True
      end
  end.

(** The exception a malformed test ends the call with. *)
Definition preflight_error (test : Test) : exn :=
  match test_regex test with
  | None => sys_unbound
  | Some pattern =>
      match re_compile X pattern with
      | Uncaught e => e
      | Compiled _ | ReError => sys_unbound
      end
  end.

(** The loop of lines 41-49 goes on behind a test, as the code is
    written: the name is listed and the matcher finds a match in the
    attribute of that name of the list of names (line 46). *)
Definition loop_lets_through (issue : Issue) (name : string) (compiled : regex X)
    : Prop :=
  in_issue_fields issue name = true /\
  exists text, getattr_list (list_doc X) name = Ok (PyStr text) /\
               re_search X compiled text = true.

(** A test passes on an issue: the issue has the field, the field holds
    a string and the matcher finds a match in that string. *)
Definition test_passes (issue : Issue) (name : string) (compiled : regex X) : Prop :=
  exists text, fields issue !! name = Some (PyStr text) /\
               re_search X compiled text = true.

(** A replacement changes the value of its field on the issue. *)
Definition rule_changes (issue : Issue) (replacement : Replacement) : Prop :=
  exists old_value,
    fields issue !! rep_field_name replacement = Some (PyStr old_value) /\
    str_replace old_value (rep_old replacement) (rep_new replacement) <> old_value.

(** The change-set of an issue at line 77. *)
Definition staged_changes (issue : Issue) (replacements : list Replacement) : changeset :=
  match stage_changes issue replacements [] with
  | (_, Ok changes) => changes
  | (_, Raise _) => []
  end.

(** A change-set that is not empty and whose every entry differs from
    the text the issue holds. *)
Definition differs (issue : Issue) (changes : changeset) : Prop :=
  changes <> [] /\
  Forall (fun kv => exists old_value,
              fields issue !! fst kv = Some (PyStr old_value) /\
              snd kv <> old_value) changes.

(** The issues the search hands to the loop. *)
Definition fetched (store : Store X) (issue_jql : string) : list Issue :=
  match search_issues X store issue_jql with
  | (_, inr issues) => issues
  | (_, inl _) => []
  end.

(** The issue as a later fetch sees it once the store has taken a
    partial update: the named fields hold the new text. *)
Definition updated_fields (fs : gmap string pyval) (changes : changeset)
    : gmap string pyval :=
  fold_left (fun m kv => <[fst kv := PyStr (snd kv)]> m) changes fs.

Definition after_update (issue : Issue) (replacements : list Replacement) : Issue :=
  {| key := key issue;
     fields := updated_fields (fields issue) (staged_changes issue replacements) |}.

(** The warnings of line 72 are plain output. *)
Definition plain_output (evs : list event) : Prop :=
  Forall (fun e => exists k f, e = EvPrint (MsgNonStr k f)) evs.

(** How the body of the loop can end for one issue, after its progress
    line and the warnings of the staging. *)
Inductive issue_end (dry_run : bool) (tests : list (string * regex X))
    (reps : list Replacement) (t : Tallies) (issue : Issue)
    : list event -> res Tallies -> Prop :=
| end_raised e :
    issue_end dry_run tests reps t issue [] (Raise e)
| end_failed_tests :
    run_tests issue tests = Ok false ->
    issue_end dry_run tests reps t issue [] (Ok (incr_failed_tests t))
| end_unchanged :
    run_tests issue tests = Ok true ->
    staged_changes issue reps = [] ->
    issue_end dry_run tests reps t issue [] (Ok (incr_unchanged t))
| end_dry_run :
    dry_run = true ->
    run_tests issue tests = Ok true ->
    differs issue (staged_changes issue reps) ->
    issue_end dry_run tests reps t issue
      [EvPrint (MsgDryRun (key issue) (staged_changes issue reps))] (Ok t)
| end_changed :
    dry_run = false ->
    run_tests issue tests = Ok true ->
    differs issue (staged_changes issue reps) ->
    issue_end dry_run tests reps t issue
      [EvUpdate (key issue) (staged_changes issue reps);
       EvPrint (MsgUpdated (key issue) (map fst (staged_changes issue reps)))]
      (Ok (incr_changed t))
| end_update_failed :
    dry_run = false ->
    run_tests issue tests = Ok true ->
    differs issue (staged_changes issue reps) ->
    issue_end dry_run tests reps t issue
      [EvUpdate (key issue) (staged_changes issue reps)] (Raise sys_unbound).

(** [changes.get(k)] *)
Fixpoint dict_get (d : changeset) (k : string) : option string :=
  match d with
  | [] => None
  | (k', v') :: d' => if String.eqb k k' then Some v' else dict_get d' k
  end.

(** The replacement reads a value that is not a string (line 71). *)
Definition on_other (issue : Issue) (replacement : Replacement) : bool :=
  match fields issue !! rep_field_name replacement with
  | Some PyOther => true
  | _ => false
  end.

(** The warning of line 72 for a replacement. *)
Definition nonstr_warning (issue : Issue) (replacement : Replacement) : event :=
  EvPrint (MsgNonStr (key issue) (rep_field_name replacement)).

(** The test loop leaves [tests_passed] false (lines 51-53). *)
Definition fails_tests (tests : list (string * regex X)) (issue : Issue) : bool :=
  match run_tests issue tests with
  | Ok false => true
  | _ => false
  end.

(** The tests pass and the change-set is empty at line 77 (line 89). *)
Definition passes_unchanged (tests : list (string * regex X))
    (replacements : list Replacement) (issue : Issue) : bool :=
  match run_tests issue tests with
  | Ok true =>
      match staged_changes issue replacements with
      | [] => true
      | _ :: _ => false
      end
  | _ => false
  end.

End Run.

Arguments update_calls : simpl nomatch.

(** ** A concrete engine and store

    Used for the closed examples at the end: the fragment of [re] whose
    patterns have no metacharacter, where [search] is a substring search
    (every other pattern is rejected with [re.error], but for one whose
    repeat count overflows), and a store that answers every
    query with its tickets and whose updates all succeed or all fail. *)

Module Sample.

Definition metachars : list ascii :=
  list_ascii_of_string ".^$*+?{}[]\|()".

Definition plain (p : string) : bool :=
  forallb (fun c => negb (existsb (Ascii.eqb c) metachars)) (list_ascii_of_string p).

Definition compile (p : string) : compilation string :=
  if String.eqb p "a{4294967296}" then Uncaught OverflowError
  else if plain p then Compiled p else ReError.

Definition search (p text : string) : bool := contains text p.

Definition doc : string :=
  "Built-in mutable sequence.

If no argument is given, the constructor creates a new empty list.
The argument must be an iterable if specified.".

Record store : Type := {
  tickets : list Issue;
  update_fails : bool
}.

Definition all_tickets (s : store) (jql : string) : store * (string + list Issue) :=
  (s, inr (tickets s)).

Definition store_update (s : store) (i : Issue) (c : changeset) : store * option string :=
  (s, if update_fails s then Some "HTTP 500" else None).

Definition externals : Externals :=
  {| regex := string;
     re_compile := compile;
     re_search := search;
     list_doc := doc;
     Store := store;
     search_issues := all_tickets;
     issue_update := store_update |}.

Definition run := find_and_replace externals.

Definition build_issue : Issue :=
  {| key := "OPS-1";
     fields := {[ "summary" := PyStr "Build v1.2 failed";
                  "status" := PyStr "Closed";
                  "assignee" := PyOther ]} |}.

Definition bump : Replacement :=
  {| rep_field_name := "summary"; rep_old := "v1.2"; rep_new := "v1.3" |}.

Definition dot_star : Replacement :=
  {| rep_field_name := "summary"; rep_old := "."; rep_new := "*" |}.

Definition absent_rule : Replacement :=
  {| rep_field_name := "summary"; rep_old := "v9.9"; rep_new := "v1.3" |}.

Definition assignee_rule : Replacement :=
  {| rep_field_name := "assignee"; rep_old := "bob"; rep_new := "eve" |}.


Definition status_open : Test :=
  {| test_field_name := "status"; test_regex := Some "Open" |}.

Definition doc_sequence : Test :=
  {| test_field_name := "__doc__"; test_regex := Some "sequence" |}.


Definition overflowing : Test :=
  {| test_field_name := "status"; test_regex := Some "a{4294967296}" |}.

Definition empty_old : Replacement :=
  {| rep_field_name := "summary"; rep_old := ""; rep_new := "-" |}.

Definition priority_open : Test :=
  {| test_field_name := "priority"; test_regex := Some "Open" |}.

Definition unbalanced : Test :=
  {| test_field_name := "status"; test_regex := Some "(" |}.

Definition deploy_issue : Issue :=
  {| key := "OPS-2";
     fields := {[ "summary" := PyStr "Deploy v1.2 done";
                  "status" := PyStr "Open" ]} |}.

Definition one_ticket (fails : bool) : store :=
  {| tickets := [build_issue]; update_fails := fails |}.

Definition two_tickets (fails : bool) : store :=
  {| tickets := [build_issue; deploy_issue]; update_fails := fails |}.

Definition doc_issue : Issue :=
  {| key := "OPS-4";
     fields := {[ "summary" := PyStr "Build v1.2 failed";
                  "__doc__" := PyStr "fields of an issue" ]} |}.

Definition doc_ticket : store :=
  {| tickets := [doc_issue]; update_fails := false |}.

Definition letter_issue : Issue :=
  {| key := "OPS-3"; fields := {[ "summary" := PyStr "a" ]} |}.

Definition double_a : Replacement :=
  {| rep_field_name := "summary"; rep_old := "a"; rep_new := "aa" |}.

End Sample.


(** * Properties *)

(** ** [str.replace] *)

Example replace_version :
  str_replace "Build v1.2 failed" "v1.2" "v1.3" = "Build v1.3 failed".
Proof. reflexivity. Qed.

Example replace_absent :
  str_replace "Build v1.2 failed" "v9.9" "v1.3" = "Build v1.2 failed".
Proof. reflexivity. Qed.

Example replace_nonoverlapping : str_replace "aaaa" "aa" "b" = "bb".
Proof. reflexivity. Qed.

Example replace_odd : str_replace "aaa" "aa" "b" = "ba".
Proof. reflexivity. Qed.

Example replace_empty_old : str_replace "abc" "" "-" = "-a-b-c-".
Proof. reflexivity. Qed.

Example replace_dot_is_a_dot : str_replace "a.b axb" "." "*" = "a*b axb".
Proof. reflexivity. Qed.

Section StrFacts.

Local Arguments String.append !s1 s2 /.

Lemma str_app_nil_r (s : string) : s +:+ "" = s.
Proof. induction s as [|c s IH]; simpl; [reflexivity | now rewrite IH]. Qed.

Lemma str_app_assoc (a b c : string) : (a +:+ b) +:+ c = a +:+ (b +:+ c).
Proof. induction a as [|x a IH]; simpl; [reflexivity | now rewrite IH]. Qed.

Lemma str_length_app (a b : string) :
  String.length (a +:+ b) = String.length a + String.length b.
Proof. induction a as [|x a IH]; simpl; [reflexivity | now rewrite IH]. Qed.

Lemma str_app_same_length (a b x y : string) :
  a +:+ x = b +:+ y -> String.length a = String.length b -> a = b /\ x = y.
Proof.
  revert b. induction a as [|c a IH]; intros [|d b] E L; simpl in *;
    try discriminate; [now split |].
  injection E as -> E. injection L as L.
  destruct (IH b E L) as [-> ->]. now split.
Qed.

Lemma strip_prefix_app (p b : string) : strip_prefix p (p +:+ b) = Some b.
Proof.
  induction p as [|c p IH]; simpl; [reflexivity |].
  now rewrite Ascii.eqb_refl.
Qed.

Lemma strip_prefix_Some (p s b : string) :
  strip_prefix p s = Some b -> s = p +:+ b.
Proof.
  revert s. induction p as [|c p IH]; intros s H; simpl in *.
  - now injection H.
  - destruct s as [|d s]; [discriminate |].
    destruct (Ascii.eqb_spec c d) as [->|]; [|discriminate].
    now rewrite (IH s H).
Qed.

(** Passing over a matched occurrence resumes the scan behind it. *)
Lemma replace_scan_skip (x b old new : string) :
  replace_scan (String.length x) (x +:+ b) old new = replace_scan 0 b old new.
Proof. induction x as [|c x IH]; simpl; [reflexivity | exact IH]. Qed.

(** The scan, one step at a time. *)
Lemma replace_scan_step (c : ascii) (s old new : string) :
  old <> "" ->
  replace_scan 0 (String c s) old new =
    match strip_prefix old (String c s) with
    | Some rest => new +:+ replace_scan 0 rest old new
    | None => String c (replace_scan 0 s old new)
    end.
Proof.
  intros Hne. simpl replace_scan. unfold startswith.
  destruct (strip_prefix old (String c s)) as [rest|] eqn:E; [|reflexivity].
  f_equal. apply strip_prefix_Some in E.
  destruct old as [|o old]; [contradiction |].
  simpl in E. injection E as _ ->.
  simpl String.length.
  replace (S (String.length old) - 1) with (String.length old) by lia.
  apply replace_scan_skip.
Qed.

Lemma occurs_cons_inv (old : string) (c : ascii) (s : string) :
  occurs old (String c s) ->
  (exists b, String c s = old +:+ b) \/ occurs old s.
Proof.
  intros ([|d a] & b & E); simpl in E.
  - left. now exists b.
  - right. injection E as _ ->. now exists a, b.
Qed.

Lemma occurs_cons (old : string) (c : ascii) (s : string) :
  occurs old s -> occurs old (String c s).
Proof. intros (a & b & ->). now exists (String c a), b. Qed.

Lemma occurs_prefix (old b : string) : occurs old (old +:+ b).
Proof. now exists "", b. Qed.

(** Without an occurrence of [old] nothing is replaced. *)
Lemma replace_scan_absent (s old new : string) :
  old <> "" -> ~ occurs old s -> replace_scan 0 s old new = s.
Proof.
  intros Hne. induction s as [|c s IH]; intros Hno; [reflexivity |].
  rewrite replace_scan_step by assumption.
  destruct (strip_prefix old (String c s)) as [rest|] eqn:E.
  - exfalso. apply Hno. rewrite (strip_prefix_Some _ _ _ E). apply occurs_prefix.
  - f_equal. apply IH. intros H. apply Hno. now apply occurs_cons.
Qed.

(** The leftmost occurrence is replaced and the scan goes on behind it. *)
Lemma replace_scan_first (a b old new : string) :
  old <> "" ->
  (forall a' b', a +:+ old +:+ b = a' +:+ old +:+ b' ->
                 String.length a <= String.length a') ->
  replace_scan 0 (a +:+ old +:+ b) old new = a +:+ new +:+ replace_scan 0 b old new.
Proof.
  intros Hne. induction a as [|c a IH]; intros Hmin.
  - destruct old as [|o old]; [contradiction |].
    simpl String.append.
    rewrite replace_scan_step by assumption.
    change (String o (old +:+ b)) with (String o old +:+ b).
    now rewrite strip_prefix_app.
  - simpl String.append. rewrite replace_scan_step by assumption.
    destruct (strip_prefix old (String c (a +:+ old +:+ b))) as [rest|] eqn:E.
    + apply strip_prefix_Some in E.
      specialize (Hmin "" rest E). simpl in Hmin. lia.
    + f_equal. apply IH. intros a' b' E'.
      specialize (Hmin (String c a') b'). simpl String.append in Hmin.
      rewrite E' in Hmin. specialize (Hmin eq_refl). simpl in Hmin. lia.
Qed.

(** Replacing [old] by itself changes nothing. *)
Lemma replace_scan_same (s old : string) :
  old <> "" -> replace_scan 0 s old old = s.
Proof.
  intros Hne. remember (String.length s) as n eqn:Hn. revert s Hn.
  induction n as [n IH] using lt_wf_ind. intros [|c s] Hn; [reflexivity |].
  rewrite replace_scan_step by assumption.
  destruct (strip_prefix old (String c s)) as [rest|] eqn:E.
  - apply strip_prefix_Some in E. rewrite E. f_equal.
    apply (IH (String.length rest)); [|reflexivity].
    rewrite Hn, E, str_length_app.
    destruct old; [contradiction | simpl; lia].
  - f_equal. apply (IH (String.length s)); [|reflexivity].
    rewrite Hn. simpl. lia.
Qed.

(** The result grows or shrinks with [new] against [old]. *)
Lemma replace_scan_length (s old new : string) :
  old <> "" ->
  (String.length old <= String.length new ->
     String.length s <= String.length (replace_scan 0 s old new)) /\
  (String.length new <= String.length old ->
     String.length (replace_scan 0 s old new) <= String.length s).
Proof.
  intros Hne. remember (String.length s) as n eqn:Hn. revert s Hn.
  induction n as [n IH] using lt_wf_ind. intros [|c s] Hn.
  - subst n. simpl. lia.
  - rewrite replace_scan_step by assumption.
    destruct (strip_prefix old (String c s)) as [rest|] eqn:E.
    + apply strip_prefix_Some in E.
      assert (Hlen : n = String.length old + String.length rest)
        by now rewrite Hn, E, str_length_app.
      assert (Hpos : 0 < String.length old)
        by (destruct old; [contradiction | simpl; lia]).
      destruct (IH (String.length rest) ltac:(lia) rest eq_refl) as [Hup Hdown].
      rewrite str_length_app. split; intros H; [specialize (Hup H) | specialize (Hdown H)]; lia.
    + destruct (IH (String.length s) ltac:(simpl in Hn; lia) s eq_refl) as [Hup Hdown].
      simpl in *. split; intros H; [specialize (Hup H) | specialize (Hdown H)]; lia.
Qed.

Lemma interleave_length (s new : string) :
  String.length (interleave s new) =
    String.length s + S (String.length s) * String.length new.
Proof.
  induction s as [|c s IH]; simpl; [lia |].
  rewrite str_length_app. simpl. rewrite IH. lia.
Qed.

Lemma interleave_nil (s : string) : interleave s "" = s.
Proof. induction s as [|c s IH]; simpl; [reflexivity | now rewrite IH]. Qed.

Lemma concat_cons_nonempty (sep x : string) (l : list string) :
  l <> [] -> String.concat sep (x :: l) = x +:+ sep +:+ String.concat sep l.
Proof. destruct l; [contradiction | reflexivity]. Qed.

Lemma interleave_join (s new : string) :
  interleave s new =
    new +:+ String.concat new
              (map (fun c => String c "") (list_ascii_of_string s) ++ [""]).
Proof.
  assert (Hne : forall l : list string, l ++ [""] <> [])
    by (intros [|x l]; discriminate).
  induction s as [|c s IH]; cbn [interleave list_ascii_of_string map].
  - cbn. now rewrite str_app_nil_r.
  - rewrite <- app_comm_cons, concat_cons_nonempty by apply Hne.
    rewrite IH. reflexivity.
Qed.

(** With an empty [old], [new] is joined around every character:
    [s.replace("", new)] is [new.join(["", c1, ..., cn, ""])]. *)
Lemma interleave_concat (s new : string) :
  interleave s new =
    String.concat new
      ("" :: map (fun c => String c "") (list_ascii_of_string s) ++ [""]).
Proof.
  rewrite concat_cons_nonempty by (destruct (map _ _); discriminate).
  apply interleave_join.
Qed.

(** A value is left as it is exactly when [old] is [new] or does not
    occur in it. *)
Lemma str_replace_fixed_iff (v old new : string) :
  str_replace v old new = v <-> (old = new \/ ~ occurs old v).
Proof.
  destruct old as [|o old]; unfold str_replace.
  - split.
    + intros H. left. apply (f_equal String.length) in H.
      rewrite interleave_length in H.
      destruct new; [reflexivity | simpl in H; lia].
    + intros [<- | H]; [apply interleave_nil |].
      exfalso. apply H. now exists "", v.
  - assert (Hne : String o old <> "") by discriminate.
    split.
    + induction v as [|c v IH]; intros H.
      * right. intros ([|d a] & b & E); discriminate.
      * rewrite replace_scan_step in H by assumption.
        destruct (strip_prefix (String o old) (String c v)) as [rest|] eqn:E.
        -- left. pose proof (strip_prefix_Some _ _ _ E) as E'.
           rewrite E' in H.
           pose proof (f_equal String.length H) as HL.
           rewrite !str_length_app in HL.
           destruct (replace_scan_length rest (String o old) new Hne) as [Hup Hdown].
           assert (HLe : String.length new = String.length (String o old)) by lia.
           symmetry. now apply (str_app_same_length _ _ _ _ H).
        -- injection H as H. destruct (IH H) as [-> | Hno]; [now left | right].
           intros Hocc. apply occurs_cons_inv in Hocc as [[b Eb] | Hocc]; [|tauto].
           rewrite Eb, strip_prefix_app in E. discriminate.
    + intros [<- | H]; [now apply replace_scan_same | now apply replace_scan_absent].
Qed.

End StrFacts.

(** C7.  Replacement is literal, for every rule.  For a field holding the
    text [v], the value line 74 computes and line 76 stages is [v]
    itself when [old] does not occur in [v] character for character.
    When [old] is not empty, it is [v] with its leftmost occurrence of
    [old] cut out, [new] put in its place as it is, and the rest treated
    the same way.  When [old] is empty, it is [new] put as it is before
    every character of [v] and at its end.  No character of [old] or
    [new] stands for anything but itself. *)
Theorem replacement_is_literal (issue : Issue) (rp : Replacement) (v : string) :
  fields issue !! rep_field_name rp = Some (PyStr v) ->
  let r := str_replace v (rep_old rp) (rep_new rp) in
  staged_changes issue [rp] =
    (if String.eqb v r then [] else [(rep_field_name rp, r)]) /\
  (~ occurs (rep_old rp) v -> r = v) /\
  (rep_old rp <> "" ->
   forall a b,
      v = a +:+ rep_old rp +:+ b ->
      (forall a' b', v = a' +:+ rep_old rp +:+ b' ->
                     String.length a <= String.length a') ->
      r = a +:+ rep_new rp +:+ str_replace b (rep_old rp) (rep_new rp)) /\
  (rep_old rp = "" ->
   r = String.concat (rep_new rp)
         ("" :: map (fun c => String c "") (list_ascii_of_string v) ++ [""])).
Proof.
  intros Hf r. split; [|split; [|split]].
  - unfold staged_changes. simpl. rewrite Hf. fold r.
    now destruct (String.eqb v r).
  - intros Hno. subst r. unfold str_replace.
    destruct (rep_old rp) as [|o old].
    + exfalso. apply Hno. now exists "", v.
    + apply replace_scan_absent; [discriminate | exact Hno].
  - intros Hne a b -> Hmin. subst r. unfold str_replace.
    destruct (rep_old rp) as [|o old] eqn:E; [contradiction |].
    now apply replace_scan_first.
  - intros Hempty. subst r. rewrite Hempty. apply interleave_concat.
Qed.

(** The dot of [v1.2] is replaced, and only the dot. *)
Lemma replacement_is_literal_witness :
  fields Sample.build_issue !! rep_field_name Sample.dot_star
    = Some (PyStr "Build v1.2 failed") /\
  staged_changes Sample.build_issue [Sample.dot_star]
    = [("summary", "Build v1*2 failed")].
Proof.
  assert (H1 : fields Sample.build_issue !! rep_field_name Sample.dot_star
               = Some (PyStr "Build v1.2 failed")) by (vm_compute; reflexivity).
  split; [exact H1 |].
  exact (proj1 (replacement_is_literal Sample.build_issue Sample.dot_star _ H1)).
Defined.

(** An empty [old] on the summary [a]. *)
Example empty_old_is_staged :
  staged_changes Sample.letter_issue [Sample.empty_old] = [("summary", "-a-")].
Proof. reflexivity. Qed.

(** ** The pre-flight, the test loop and the staging *)

Section RunFacts.

Variable X : Externals.

(** What a successful pre-flight hands to the loop. *)
Lemma precompile_Ok (tests : list Test) (cs : list (string * regex X)) :
  precompile X tests = Ok cs ->
  Forall2 (fun t c => fst c = test_field_name t /\
                      exists p, test_regex t = Some p /\
                                re_compile X p = Compiled (snd c)) tests cs.
Proof.
  revert cs. induction tests as [|t tests IH]; intros cs H; simpl in H.
  - injection H as <-. constructor.
  - destruct (test_regex t) as [p|] eqn:Ep; [|discriminate].
    destruct (re_compile X p) as [r| |e] eqn:Er; try discriminate.
    destruct (precompile X tests) as [cs'|]; [|discriminate].
    injection H as <-. constructor; [|now apply IH].
    simpl. split; [reflexivity | now exists p].
Qed.

(** A malformed test keeps the pre-flight from passing. *)
Lemma precompile_malformed (tests : list Test) (cs : list (string * regex X)) :
  (exists t, In t tests /\ malformed X t) ->
  precompile X tests <> Ok cs.
Proof.
  intros (t & Hin & Hbad) H. apply precompile_Ok in H.
  revert Hin. induction H as [|t0 c tests cs (_ & p & Hp & Hc) _ IH]; intros Hin.
  - destruct Hin.
  - destruct Hin as [-> | Hin]; [|now apply IH].
    unfold malformed in Hbad. now rewrite Hp, Hc in Hbad.
Qed.

(** The exceptions of the pre-flight: the [NameError] of its error
    branches, or what [re.compile] raised and line 23 did not catch. *)
Lemma precompile_Raise (tests : list Test) (e : exn) :
  precompile X tests = Raise e ->
  e = sys_unbound \/
  exists t p, In t tests /\ test_regex t = Some p /\ re_compile X p = Uncaught e.
Proof.
  induction tests as [|t tests IH]; intros H; simpl in H; [discriminate |].
  destruct (test_regex t) as [p|] eqn:Ep; [|injection H as <-; now left].
  destruct (re_compile X p) as [r| |e'] eqn:Er.
  - destruct (precompile X tests) as [cs|e']; [discriminate |].
    injection H as ->. destruct (IH eq_refl) as [-> | (t' & p' & Hin & Hp & Hc)];
      [now left | right].
    exists t', p'. split; [now right | now split].
  - injection H as <-. now left.
  - injection H as ->. right. exists t, p. split; [now left | now split].
Qed.

(** The pre-flight ends at the first malformed test, with its error. *)
Lemma precompile_first_malformed (pre post : list Test) (t : Test) :
  (forall t', In t' pre -> ~ malformed X t') ->
  malformed X t ->
  precompile X (pre ++ t :: post) = Raise (preflight_error X t).
Proof.
  intros Hpre Hbad. induction pre as [|t0 pre IH]; simpl.
  - unfold malformed in Hbad. unfold preflight_error.
    destruct (test_regex t) as [p|]; [|reflexivity].
    now destruct (re_compile X p).
  - pose proof (Hpre t0 (or_introl eq_refl)) as H0. unfold malformed in H0.
    destruct (test_regex t0) as [p|]; [|now destruct H0].
    destruct (re_compile X p); try now destruct H0.
    rewrite IH; [reflexivity |]. intros t' Hin. apply Hpre. now right.
Qed.

Lemma run_tests_passed (issue : Issue) (tests : list (string * regex X)) :
  run_tests X issue tests = Ok true ->
  Forall (fun c => loop_lets_through X issue (fst c) (snd c)) tests.
Proof.
  induction tests as [|[name r] tests IH]; intros H; [constructor |].
  simpl in H.
  destruct (in_issue_fields issue name) eqn:Ein; simpl in H; [|discriminate].
  destruct (getattr_list (list_doc X) name) as [[text|]|] eqn:Eg; try discriminate.
  destruct (re_search X r text) eqn:Es; [|discriminate].
  constructor; [|now apply IH].
  split; [exact Ein | now exists text].
Qed.


(** Line 46 on a field that is no attribute of a list: the loop raises. *)
Lemma run_tests_ordinary_field (issue : Issue) (name : string) (r : regex X)
    (rest : list (string * regex X)) :
  in_issue_fields issue name = true ->
  String.eqb name "__doc__" = false ->
  existsb (String.eqb name) list_attributes = false ->
  run_tests X issue ((name, r) :: rest) = Raise (AttributeError name).
Proof.
  intros Hin Hdoc Hattr. simpl. rewrite Hin. unfold getattr_list.
  now rewrite Hdoc, Hattr.
Qed.

(** Line 43 on a field the issue does not list: the loop raises. *)
Lemma run_tests_missing_field (issue : Issue) (name : string) (r : regex X)
    (rest : list (string * regex X)) :
  in_issue_fields issue name = false ->
  run_tests X issue ((name, r) :: rest) = Raise sys_unbound.
Proof. intros Hin. simpl. now rewrite Hin. Qed.

(** Line 86 on an update the store refuses: the handler raises. *)
Lemma apply_changes_refused (store store' : Store X) (t : Tallies) (issue : Issue)
    (kv : string * string) (ch : changeset) (err : string) :
  issue_update X store issue (kv :: ch) = (store', Some err) ->
  apply_changes X false store t issue (kv :: ch)
    = ([EvUpdate (key issue) (kv :: ch)], store', Raise sys_unbound).
Proof. intros H. simpl. now rewrite H. Qed.

Lemma dict_set_nonempty (d : changeset) (k v : string) : dict_set d k v <> [].
Proof. destruct d as [|[k' v'] d]; simpl; [|destruct (String.eqb k k')]; discriminate. Qed.

Lemma dict_set_Forall (P : string * string -> Prop) (d : changeset) (k v : string) :
  P (k, v) -> Forall P d -> Forall P (dict_set d k v).
Proof.
  intros Hkv. induction 1 as [|[k' v'] d Hx Hd IH]; simpl.
  - now constructor.
  - destruct (String.eqb k k'); constructor; assumption.
Qed.

Lemma stage_changes_output (issue : Issue) (reps : list Replacement) (acc : changeset) :
  plain_output (fst (stage_changes issue reps acc)).
Proof.
  revert acc. induction reps as [|rp reps IH]; intros acc; simpl; [constructor |].
  destruct (fields issue !! rep_field_name rp) as [[v|]|]; [| |constructor].
  - destruct (String.eqb v _); apply IH.
  - specialize (IH acc). destruct (stage_changes issue reps acc) as [evs r].
    simpl in *. constructor; [eauto | exact IH].
Qed.

Lemma plain_output_updates (evs : list event) :
  plain_output evs -> update_calls evs = [].
Proof. induction 1 as [|e evs (k & f & ->) _ IH]; [reflexivity | exact IH]. Qed.

Lemma plain_output_filter (p : event -> bool) (evs : list event) :
  (forall k f, p (EvPrint (MsgNonStr k f)) = false) ->
  plain_output evs -> List.filter p evs = [].
Proof.
  intros Hp. induction 1 as [|e evs (k & f & ->) _ IH]; [reflexivity |].
  simpl. now rewrite Hp.
Qed.

(** The change-set at the end of the staging loop. *)
Lemma stage_changes_nonempty (issue : Issue) (reps : list Replacement)
    (acc ch : changeset) (w : list event) :
  stage_changes issue reps acc = (w, Ok ch) ->
  (ch <> [] <-> acc <> [] \/ exists rp, In rp reps /\ rule_changes issue rp).
Proof.
  revert acc w. induction reps as [|rp reps IH]; intros acc w H; simpl in H.
  - injection H as _ <-. split; [now left | intros [H | (rp & [] & _)]; exact H].
  - destruct (fields issue !! rep_field_name rp) as [[v|]|] eqn:Ef; [| |discriminate].
    + destruct (String.eqb_spec v (str_replace v (rep_old rp) (rep_new rp))) as [E|E].
      * rewrite (IH _ _ H). split; (intros [Ha|(rp' & Hin & Hch)]; [now left | right]).
        -- exists rp'. split; [now right | exact Hch].
        -- destruct Hin as [<- | Hin]; [|now exists rp'].
           destruct Hch as (v' & Ev' & Hne). rewrite Ef in Ev'.
           injection Ev' as <-. now symmetry in E.
      * rewrite (IH _ _ H). split; intros _.
        -- right. exists rp. split; [now left |]. exists v. split; [exact Ef | congruence].
        -- left. apply dict_set_nonempty.
    + destruct (stage_changes issue reps acc) as [evs r] eqn:Es.
      injection H as _ ->. rewrite (IH _ _ Es).
      split; (intros [Ha|(rp' & Hin & Hch)]; [now left | right]).
      * exists rp'. split; [now right | exact Hch].
      * destruct Hin as [<- | Hin]; [|now exists rp'].
        destruct Hch as (v' & Ev' & _). rewrite Ef in Ev'. discriminate.
Qed.

Lemma stage_changes_entries (issue : Issue) (reps : list Replacement)
    (acc ch : changeset) (w : list event) :
  let P := fun kv : string * string =>
             exists old_value, fields issue !! fst kv = Some (PyStr old_value) /\
                               snd kv <> old_value in
  stage_changes issue reps acc = (w, Ok ch) -> Forall P acc -> Forall P ch.
Proof.
  intros P. revert acc w. induction reps as [|rp reps IH]; intros acc w H Hacc; simpl in H.
  - now injection H as _ <-.
  - destruct (fields issue !! rep_field_name rp) as [[v|]|] eqn:Ef; [| |discriminate].
    + destruct (String.eqb_spec v (str_replace v (rep_old rp) (rep_new rp))) as [E|E].
      * exact (IH _ _ H Hacc).
      * apply (IH _ _ H). apply dict_set_Forall; [|exact Hacc].
        exists v. simpl. split; [exact Ef | congruence].
    + destruct (stage_changes issue reps acc) as [evs r] eqn:Es.
      injection H as _ ->. exact (IH _ _ Es Hacc).
Qed.

(** Behind the check of line 56 every [getattr] of line 70 succeeds. *)
Lemma stage_changes_present (issue : Issue) (reps : list Replacement) (acc : changeset) :
  replacement_fields reps ⊆ dom (fields issue) ->
  exists ch, snd (stage_changes issue reps acc) = Ok ch.
Proof.
  revert acc. induction reps as [|rp reps IH]; intros acc Hsub; simpl; [eauto |].
  unfold replacement_fields in Hsub. simpl in Hsub.
  apply union_subseteq in Hsub as [Hin Hrest].
  apply singleton_subseteq_l in Hin. fold (replacement_fields reps) in Hrest.
  apply elem_of_dom in Hin as [x Hx]. rewrite Hx.
  destruct x as [v|].
  - destruct (String.eqb v _); now apply IH.
  - destruct (IH acc Hrest) as [ch Hch].
    destruct (stage_changes issue reps acc) as [evs r]. simpl in *. eauto.
Qed.

End RunFacts.

(** ** One issue, then all of them *)

Section LoopFacts.

Variable X : Externals.

Lemma update_calls_app (a b : list event) :
  update_calls (a ++ b) = update_calls a ++ update_calls b.
Proof.
  induction a as [|e a IH]; [reflexivity |].
  destruct e; simpl; rewrite IH; reflexivity.
Qed.

Lemma process_issue_shape (dry_run : bool) (tests : list (string * regex X))
    (reps : list Replacement) (store store' : Store X) (t : Tallies)
    (issue : Issue) (evs : list event) (r : res Tallies) :
  process_issue X dry_run tests reps store t issue = (evs, store', r) ->
  exists w tail,
    evs = EvPrint (MsgEvaluatingIssue (key issue)) :: w ++ tail /\
    plain_output w /\
    issue_end X dry_run tests reps t issue tail r /\
    (update_calls tail = [] -> store' = store).
Proof.
  unfold process_issue. intros H.
  destruct (run_tests X issue tests) as [[|]|e] eqn:Et.
  - destruct (bool_decide (replacement_fields reps ⊆ dom (fields issue))); simpl in H.
    + pose proof (stage_changes_output issue reps []) as Hw.
      pose proof (stage_changes_nonempty issue reps [] ) as Hne.
      pose proof (stage_changes_entries issue reps []) as Hent.
      assert (Hst : staged_changes issue reps =
                    match snd (stage_changes issue reps []) with
                    | Ok ch => ch | Raise _ => [] end)
        by (unfold staged_changes; now destruct (stage_changes issue reps []) as [? [|]]).
      destruct (stage_changes issue reps []) as [w [ch|e]]; simpl in *.
      * assert (Hd : staged_changes issue reps <> [] ->
                     differs issue (staged_changes issue reps)).
        { intros Hn. split; [exact Hn |]. rewrite Hst.
          apply (Hent _ w eq_refl). constructor. }
        unfold apply_changes in H.
        destruct ch as [|kv ch].
        -- injection H as <- <- <-. exists w, []. repeat split; auto.
           now constructor.
        -- assert (Hn : staged_changes issue reps <> []) by (rewrite Hst; discriminate).
           rewrite <- Hst in H. destruct dry_run.
           ++ injection H as <- <- <-. eexists w, [_]. repeat split; auto.
              constructor; auto.
           ++ destruct (issue_update X store issue (staged_changes issue reps))
                as [store'' [err|]];
                injection H as <- <- <-; eexists w, _; repeat split; auto;
                try discriminate; constructor; auto.
      * injection H as <- <- <-. exists w, []. rewrite app_nil_r.
        repeat split; auto. constructor.
    + injection H as <- <- <-. exists [], []. repeat split; auto; constructor.
  - injection H as <- <- <-. exists [], []. repeat split; auto; try constructor.
    exact Et.
  - injection H as <- <- <-. exists [], []. repeat split; auto; constructor.
Qed.

Lemma issue_events_filter (p : event -> bool) (e : event) (w tail : list event) :
  (forall k f, p (EvPrint (MsgNonStr k f)) = false) ->
  plain_output w ->
  List.filter p (e :: w ++ tail) = List.filter p [e] ++ List.filter p tail.
Proof.
  intros Hp Hw. change (e :: w ++ tail) with ([e] ++ w ++ tail).
  now rewrite !List.filter_app, (plain_output_filter p w Hp Hw).
Qed.

(** The loop emits neither a search nor a summary, and starts each issue
    it gets through exactly once. *)
Lemma process_issues_events (dry_run : bool) (tests : list (string * regex X))
    (reps : list Replacement) (issues : list Issue) (store store' : Store X)
    (t : Tallies) (evs : list event) (r : res Tallies) :
  process_issues X dry_run tests reps store t issues = (evs, store', r) ->
  List.filter is_summary evs = [] /\
  List.filter is_search evs = [] /\
  List.filter is_warning evs = [] /\
  (forall t', r = Ok t' ->
     length (List.filter is_issue_start evs) = length issues).
Proof.
  revert store store' t evs r.
  induction issues as [|i issues IH]; intros store store' t evs r H; simpl in H.
  - injection H as <- _ _. repeat split; reflexivity.
  - destruct (process_issue X dry_run tests reps store t i) as [[e1 s1] r1] eqn:E1.
    destruct (process_issue_shape _ _ _ _ _ _ _ _ _ E1) as (w & tail & -> & Hw & Hend & _).
    assert (Hone :
      List.filter is_summary (EvPrint (MsgEvaluatingIssue (key i)) :: w ++ tail) = [] /\
      List.filter is_search (EvPrint (MsgEvaluatingIssue (key i)) :: w ++ tail) = [] /\
      List.filter is_warning (EvPrint (MsgEvaluatingIssue (key i)) :: w ++ tail) = [] /\
      length (List.filter is_issue_start
                (EvPrint (MsgEvaluatingIssue (key i)) :: w ++ tail)) = 1).
    { rewrite !issue_events_filter by (assumption || reflexivity).
      destruct Hend; repeat split; reflexivity. }
    destruct Hone as (H1 & H2 & H3 & H4).
    destruct r1 as [t1|e].
    + destruct (process_issues X dry_run tests reps s1 t1 issues) as [[e2 s2] r2] eqn:E2.
      injection H as <- _ <-.
      destruct (IH _ _ _ _ _ E2) as (I1 & I2 & I3 & I4).
      rewrite (app_comm_cons (w ++ tail) e2).
      rewrite !List.filter_app, H1, H2, H3, I1, I2, I3.
      repeat split; try reflexivity.
      intros t' Ht'. rewrite length_app, H4, (I4 _ Ht'). reflexivity.
    + injection H as <- _ <-. repeat split; try assumption. discriminate.
Qed.

(** The update calls of the loop: at most one for each fetched issue, in
    order, each for an issue whose tests passed and whose change-set is
    not empty. *)
Lemma process_issues_updates (dry_run : bool) (tests : list (string * regex X))
    (reps : list Replacement) (issues : list Issue) (store store' : Store X)
    (t : Tallies) (evs : list event) (r : res Tallies) :
  process_issues X dry_run tests reps store t issues = (evs, store', r) ->
  exists updated,
    sublist updated issues /\
    update_calls evs = map (fun i => (key i, staged_changes i reps)) updated /\
    Forall (fun i => dry_run = false /\
                     run_tests X i tests = Ok true /\
                     differs i (staged_changes i reps)) updated.
Proof.
  revert store store' t evs r.
  induction issues as [|i issues IH]; intros store store' t evs r H; simpl in H.
  - injection H as <- _ _. exists []. repeat split; constructor.
  - destruct (process_issue X dry_run tests reps store t i) as [[e1 s1] r1] eqn:E1.
    destruct (process_issue_shape _ _ _ _ _ _ _ _ _ E1) as (w & tail & -> & Hw & Hend & _).
    assert (Hrest : exists updated' e2,
               evs = (EvPrint (MsgEvaluatingIssue (key i)) :: w ++ tail) ++ e2 /\
               sublist updated' issues /\
               update_calls e2 = map (fun i => (key i, staged_changes i reps)) updated' /\
               Forall (fun i => dry_run = false /\
                                run_tests X i tests = Ok true /\
                                differs i (staged_changes i reps)) updated').
    { destruct r1 as [t1|e].
      - destruct (process_issues X dry_run tests reps s1 t1 issues) as [[e2 s2] r2] eqn:E2.
        injection H as <- _ _.
        destruct (IH _ _ _ _ _ E2) as (u & Hs & Hu & Hf). now exists u, e2.
      - injection H as <- _ _. exists [], []. rewrite app_nil_r.
        repeat split; [apply sublist_nil_l | constructor]. }
    destruct Hrest as (u & e2 & -> & Hs & Hu & Hf).
    change (EvPrint (MsgEvaluatingIssue (key i)) :: w ++ tail)
      with ([EvPrint (MsgEvaluatingIssue (key i))] ++ w ++ tail).
    rewrite !update_calls_app, (plain_output_updates w Hw), Hu. simpl.
    destruct Hend; simpl;
      first [ exists u; split; [now apply sublist_cons | now split]
            | exists (i :: u); split; [now apply sublist_skip |];
              split; [reflexivity | constructor; auto] ].
Qed.

(** The counters after the loop. *)
Lemma process_issues_tallies (dry_run : bool) (tests : list (string * regex X))
    (reps : list Replacement) (issues : list Issue) (store store' : Store X)
    (t t' : Tallies) (evs : list event) :
  process_issues X dry_run tests reps store t issues = (evs, store', Ok t') ->
  selected_issues t' = selected_issues t /\
  failed_issues t' = failed_issues t /\
  outcomes t' <= outcomes t + length issues /\
  (dry_run = false -> outcomes t' = outcomes t + length issues).
Proof.
  revert store store' t evs.
  induction issues as [|i issues IH]; intros store store' t evs H; simpl in H.
  - injection H as _ _ <-. repeat split; simpl; lia.
  - destruct (process_issue X dry_run tests reps store t i) as [[e1 s1] r1] eqn:E1.
    destruct (process_issue_shape _ _ _ _ _ _ _ _ _ E1) as (w & tail & _ & _ & Hend & _).
    destruct r1 as [t1|e]; [|discriminate].
    destruct (process_issues X dry_run tests reps s1 t1 issues) as [[e2 s2] r2] eqn:E2.
    injection H as _ _ ->.
    destruct (IH _ _ _ _ E2) as (I1 & I2 & I3 & I4).
    rewrite I1, I2. simpl length.
    inversion Hend; subst; unfold outcomes in *; simpl in *;
      repeat split; try lia; intros Hd; try discriminate; specialize (I4 Hd); lia.
Qed.

End LoopFacts.

(** ** The run as a whole *)

Section Claims.

Variable X : Externals.

Lemma tests_all_let_through (tests : list Test) (cs : list (string * regex X))
    (i : Issue) :
  precompile X tests = Ok cs ->
  run_tests X i cs = Ok true ->
  Forall (fun t => exists p r, test_regex t = Some p /\
                               re_compile X p = Compiled r /\
                               loop_lets_through X i (test_field_name t) r) tests.
Proof.
  intros Hc Hr. apply precompile_Ok in Hc. apply run_tests_passed in Hr.
  induction Hc as [|t c tests cs (Hn & p & Hp & Hcp) _ IH]; [constructor |].
  inversion Hr as [|? ? Hpass Hrest]; subst.
  constructor; [|now apply IH].
  exists p, (snd c). rewrite <- Hn. auto.
Qed.

(** C1.  When the list of tests holds a malformed one (no [regex] key, or
    a pattern [re.compile] refuses), the call ends before any issue is
    processed: the trace has no search, no issue is started, no update
    is made and the store is as it was.  The call ends by an exception:
    the [NameError] of the error branch, or what [re.compile] raised
    when line 23 does not catch it; it is the [NameError] whenever
    [re.compile] fails by [re.error] only. *)
Theorem malformed_test_stops_before_search (issue_jql : string)
    (replacements : list Replacement) (additional_tests : list Test)
    (dry_run : bool) (store : Store X) :
  (exists t, In t additional_tests /\ malformed X t) ->
  let '(tr, store', out) :=
    find_and_replace X issue_jql replacements additional_tests dry_run store in
  List.filter is_search tr = [] /\
  List.filter is_issue_start tr = [] /\
  update_calls tr = [] /\
  store' = store /\
  (exists e, out = Raised e /\
     (e = sys_unbound \/
      exists t p, In t additional_tests /\ test_regex t = Some p /\
                  re_compile X p = Uncaught e)) /\
  ((forall t p e, In t additional_tests -> test_regex t = Some p ->
                  re_compile X p <> Uncaught e) ->
   out = Raised sys_unbound).
Proof.
  intros Hbad. unfold find_and_replace.
  destruct (precompile X additional_tests) as [cs|e] eqn:Ec.
  - now destruct (precompile_malformed X _ cs Hbad).
  - pose proof (precompile_Raise X _ _ Ec) as He.
    repeat split; [now exists e |].
    intros Hno. destruct He as [-> | (t & p & Hin & Hp & Hc)]; [reflexivity |].
    now destruct (Hno t p e Hin Hp).
Qed.

(** In every run the update calls are made for a sub-sequence of the
    fetched issues, one call each at most; each of them is made outside
    dry-run mode, for an issue that the loop of lines 41-49 let through
    at every test and whose change-set is not empty and holds only
    values that differ from the text of their field. *)
Lemma update_once_and_gated_by_loop (issue_jql : string)
    (replacements : list Replacement) (additional_tests : list Test)
    (dry_run : bool) (store : Store X) :
  exists updated : list Issue,
    sublist updated (fetched X store issue_jql) /\
    update_calls
      (fst (fst (find_and_replace X issue_jql replacements additional_tests
                   dry_run store)))
    = map (fun i => (key i, staged_changes i replacements)) updated /\
    Forall (fun i =>
              dry_run = false /\
              Forall (fun t => exists p r,
                          test_regex t = Some p /\
                          re_compile X p = Compiled r /\
                          loop_lets_through X i (test_field_name t) r)
                     additional_tests /\
              differs i (staged_changes i replacements)) updated.
Proof.
  unfold find_and_replace, fetched.
  destruct (precompile X additional_tests) as [cs|e] eqn:Ec.
  - destruct (search_issues X store issue_jql) as [s1 [err|issues]].
    + exists []. repeat split; [apply sublist_nil_l | constructor].
    + destruct (process_issues X dry_run cs replacements s1
                  (initial_tallies (length issues)) issues) as [[evs s2] r] eqn:Ep.
      destruct (process_issues_updates X _ _ _ _ _ _ _ _ _ Ep) as (u & Hs & Hu & Hf).
      exists u. split; [exact Hs | split].
      * destruct r; simpl; rewrite ?update_calls_app, Hu; simpl;
          now rewrite ?app_nil_r.
      * eapply Forall_impl; [exact Hf |].
        intros i (Hd & Ht & Hdiff).
        split; [exact Hd | split; [now apply (tests_all_let_through _ cs) | exact Hdiff]].
  - exists []. destruct (search_issues X store issue_jql) as [s1 [err|issues]];
      repeat split; try apply sublist_nil_l; constructor.
Qed.


(** C9, as the code has it.  A call that gets through all the fetched
    issues prints, as its last output and only once, a summary line with
    the five counters, and ends with [None]: no summary is handed back.
    The counter of selected issues is the number of fetched issues and
    every one of them was started.  A call that raises prints no
    summary. *)
Theorem summary_is_printed_not_returned (issue_jql : string)
    (replacements : list Replacement) (additional_tests : list Test)
    (dry_run : bool) (store : Store X) :
  let '(tr, _, out) :=
    find_and_replace X issue_jql replacements additional_tests dry_run store in
  match out with
  | Returned v =>
      v = None /\
      exists pre t,
        tr = pre ++ [EvPrint (MsgSummary t)] /\
        List.filter is_summary pre = [] /\
        length (List.filter is_issue_start pre)
          = length (fetched X store issue_jql) /\
        selected_issues t = length (fetched X store issue_jql) /\
        outcomes t <= selected_issues t /\
        (dry_run = false -> outcomes t = selected_issues t)
  | Raised _ => List.filter is_summary tr = []
  end.
Proof.
  unfold find_and_replace, fetched.
  destruct (precompile X additional_tests) as [cs|e]; [|reflexivity].
  destruct (search_issues X store issue_jql) as [s1 [err|issues]]; [reflexivity |].
  destruct (process_issues X dry_run cs replacements s1
              (initial_tallies (length issues)) issues) as [[evs s2] r] eqn:Ep.
  destruct (process_issues_events X _ _ _ _ _ _ _ _ _ Ep) as (H1 & H2 & H3 & H4).
  destruct r as [t|e].
  - split; [reflexivity |].
    exists ([EvSearch issue_jql; EvPrint (MsgEvaluating (length issues))] ++ evs), t.
    destruct (process_issues_tallies X _ _ _ _ _ _ _ _ _ Ep) as (T1 & T2 & T3 & T4).
    rewrite !List.filter_app, length_app, H1, (H4 t eq_refl), T1.
    unfold outcomes in *. simpl in *.
    repeat split; try reflexivity; try lia. exact T4.
  - rewrite !List.filter_app, H1. reflexivity.
Qed.

End Claims.

(** ** Applying the rules again *)

Lemma updated_fields_dom (fs : gmap string pyval) (ch : changeset) :
  dom fs ⊆ dom (updated_fields fs ch).
Proof.
  unfold updated_fields. revert fs.
  induction ch as [|kv ch IH]; intros fs; simpl; [reflexivity |].
  etrans; [|apply IH]. rewrite dom_insert. apply union_subseteq_r.
Qed.

(** With all its fields at hand, a rule set stages nothing exactly when no
    rule finds its [old] in the text of its field, or replaces it by
    itself. *)
Lemma staged_changes_empty_iff (issue : Issue) (reps : list Replacement) :
  replacement_fields reps ⊆ dom (fields issue) ->
  staged_changes issue reps = [] <->
  (forall rp, In rp reps ->
     forall v, fields issue !! rep_field_name rp = Some (PyStr v) ->
               rep_old rp = rep_new rp \/ ~ occurs (rep_old rp) v).
Proof.
  intros Hsub.
  destruct (stage_changes_present issue reps [] Hsub) as [ch Hok].
  unfold staged_changes.
  destruct (stage_changes issue reps []) as [w rs] eqn:Es. simpl in Hok. subst rs.
  pose proof (stage_changes_nonempty issue reps [] ch w Es) as [Hfwd Hbwd].
  split.
  - intros -> rp Hin v Hv. apply str_replace_fixed_iff.
    destruct (string_dec (str_replace v (rep_old rp) (rep_new rp)) v) as [E|E];
      [exact E | exfalso].
    apply Hbwd; [|reflexivity]. right. exists rp. split; [exact Hin | now exists v].
  - intros Hall. destruct ch as [|kv ch]; [reflexivity | exfalso].
    destruct Hfwd as [Habs | (rp & Hin & v & Hv & Hne)]; [discriminate | now apply Habs |].
    apply Hne. apply str_replace_fixed_iff. now apply (Hall rp Hin).
Qed.

(** C8, as the code has it.  For an issue with every replacement field,
    applying the rule set again to the values left by a first application
    stages nothing (and then leaves the issue as it is) exactly when every
    rule has [old] equal to [new] or finds no occurrence of [old] in the
    text its field then holds. *)
Theorem second_application_noop_iff (issue : Issue) (reps : list Replacement) :
  replacement_fields reps ⊆ dom (fields issue) ->
  let once := after_update issue reps in
  (staged_changes once reps = [] <->
   (forall rp, In rp reps ->
      forall v, fields once !! rep_field_name rp = Some (PyStr v) ->
                rep_old rp = rep_new rp \/ ~ occurs (rep_old rp) v)) /\
  (staged_changes once reps = [] -> after_update once reps = once).
Proof.
  intros Hsub once. split.
  - apply staged_changes_empty_iff. subst once. simpl.
    etrans; [exact Hsub | apply updated_fields_dom].
  - intros E. unfold after_update. rewrite E. now destruct once.
Qed.

(** ** Closed instances *)

(** The two scenarios of the spec that involve no test. *)
Example bump_is_committed :
  fst (Sample.run "project = OPS" [Sample.bump] [] false (Sample.one_ticket false))
  = ([EvSearch "project = OPS"; EvPrint (MsgEvaluating 1);
      EvPrint (MsgEvaluatingIssue "OPS-1");
      EvUpdate "OPS-1" [("summary", "Build v1.3 failed")];
      EvPrint (MsgUpdated "OPS-1" ["summary"]);
      EvPrint (MsgSummary (incr_changed (initial_tallies 1)))],
     Sample.one_ticket false).
Proof. vm_compute. reflexivity. Qed.

Example absent_old_is_unchanged :
  fst (Sample.run "project = OPS"
         [{| rep_field_name := "summary"; rep_old := "v9.9"; rep_new := "v1.3" |}]
         [] false (Sample.one_ticket false))
  = ([EvSearch "project = OPS"; EvPrint (MsgEvaluating 1);
      EvPrint (MsgEvaluatingIssue "OPS-1");
      EvPrint (MsgSummary (incr_unchanged (initial_tallies 1)))],
     Sample.one_ticket false).
Proof. vm_compute. reflexivity. Qed.

Lemma sample_fields_present :
  replacement_fields [Sample.bump] ⊆ dom (fields Sample.build_issue).
Proof.
  apply (bool_decide_eq_true_1
           (replacement_fields [Sample.bump] ⊆ dom (fields Sample.build_issue))).
  vm_compute. reflexivity.
Defined.

(** A test with an unbalanced parenthesis stops the call at once. *)
Lemma malformed_test_stops_before_search_witness :
  (exists t, In t [Sample.unbalanced] /\ malformed Sample.externals t) /\
  (let '(tr, store', out) :=
     find_and_replace Sample.externals "project = OPS" [Sample.bump]
       [Sample.unbalanced] false (Sample.one_ticket false) in
   List.filter is_search tr = [] /\
   List.filter is_issue_start tr = [] /\
   update_calls tr = [] /\
   store' = Sample.one_ticket false /\
   (exists e, out = Raised e /\
      (e = sys_unbound \/
       exists t p, In t [Sample.unbalanced] /\ test_regex t = Some p /\
                   re_compile Sample.externals p = Uncaught e)) /\
   ((forall t p e, In t [Sample.unbalanced] -> test_regex t = Some p ->
                   re_compile Sample.externals p <> Uncaught e) ->
    out = Raised sys_unbound)).
Proof.
  assert (H : exists t, In t [Sample.unbalanced] /\ malformed Sample.externals t).
  { exists Sample.unbalanced. split; [now left | exact I]. }
  split; [exact H |].
  exact (malformed_test_stops_before_search Sample.externals "project = OPS"
           [Sample.bump] [Sample.unbalanced] false (Sample.one_ticket false) H).
Defined.


(** The version bump applied to OPS-1 a second time. *)
Lemma second_application_noop_iff_witness :
  replacement_fields [Sample.bump] ⊆ dom (fields Sample.build_issue) /\
  (let once := after_update Sample.build_issue [Sample.bump] in
   (staged_changes once [Sample.bump] = [] <->
    (forall rp, In rp [Sample.bump] ->
       forall v, fields once !! rep_field_name rp = Some (PyStr v) ->
                 rep_old rp = rep_new rp \/ ~ occurs (rep_old rp) v)) /\
   (staged_changes once [Sample.bump] = [] ->
    after_update once [Sample.bump] = once)).
Proof.
  split; [exact sample_fields_present |].
  exact (second_application_noop_iff Sample.build_issue [Sample.bump]
           sample_fields_present).
Defined.

(** C8 as stated fails: a rule whose [new] holds its [old] changes the
    value again on every application. *)
Lemma replacement_not_idempotent :
  let once := after_update Sample.letter_issue [Sample.double_a] in
  let twice := after_update once [Sample.double_a] in
  fields once !! "summary" = Some (PyStr "aa") /\
  fields twice !! "summary" = Some (PyStr "aaaa") /\
  twice <> once.
Proof.
  split; [vm_compute; reflexivity | split; [vm_compute; reflexivity |]].
  intros E. apply (f_equal (fun i => fields i !! "summary")) in E.
  vm_compute in E. discriminate.
Qed.

(** C9 as stated fails: the call that updates one issue ends with [None],
    not with a summary. *)
Lemma no_summary_is_returned :
  snd (Sample.run "project = OPS" [Sample.bump] [] false (Sample.one_ticket false))
    = Returned None /\
  ~ (exists s,
       snd (Sample.run "project = OPS" [Sample.bump] [] false
              (Sample.one_ticket false)) = Returned (Some s)).
Proof.
  split; [vm_compute; reflexivity |].
  intros [s H]. vm_compute in H. discriminate.
Qed.

(** C2 at the scenario of the spec: a test of [status] against [Open] on
    an issue whose [status] is [Closed].  Line 46 reads the attribute
    [status] of the list of names, which has none: the call raises
    [AttributeError] at the first issue and prints no summary. *)
Theorem status_test_raises_attribute_error :
  fields Sample.build_issue !! "status" = Some (PyStr "Closed") /\
  let '(tr, _, out) :=
    Sample.run "project = OPS" [Sample.bump] [Sample.status_open] false
      (Sample.one_ticket false) in
  tr = [EvSearch "project = OPS"; EvPrint (MsgEvaluating 1);
        EvPrint (MsgEvaluatingIssue "OPS-1")] /\
  out = Raised (AttributeError "status").
Proof. vm_compute. repeat split. Qed.

(** C3 at an issue without the tested field: line 43 raises [NameError]
    on [sys]; nothing is written, no counter moves and the call ends
    there. *)
Theorem missing_test_field_raises_name_error :
  fields Sample.build_issue !! "priority" = None /\
  let '(tr, _, out) :=
    Sample.run "project = OPS" [Sample.bump] [Sample.priority_open] false
      (Sample.one_ticket false) in
  tr = [EvSearch "project = OPS"; EvPrint (MsgEvaluating 1);
        EvPrint (MsgEvaluatingIssue "OPS-1")] /\
  List.filter is_warning tr = [] /\
  out = Raised sys_unbound.
Proof. vm_compute. repeat split. Qed.

(** C4 at a store whose updates fail: the handler of line 86 raises
    [NameError] on [sys]; nothing is written and the second issue is
    never started. *)
Theorem failed_update_ends_the_run :
  let '(tr, _, out) :=
    Sample.run "project = OPS" [Sample.bump] [] false (Sample.two_tickets true) in
  tr = [EvSearch "project = OPS"; EvPrint (MsgEvaluating 2);
        EvPrint (MsgEvaluatingIssue "OPS-1");
        EvUpdate "OPS-1" [("summary", "Build v1.3 failed")]] /\
  List.filter is_warning tr = [] /\
  out = Raised sys_unbound.
Proof. vm_compute. repeat split. Qed.

(** C10 at a failing update outside dry-run mode: the body of the loop
    raises before line 87, so the issue moves none of the counters. *)
Theorem failed_update_moves_no_counter (t : Tallies) :
  process_issue Sample.externals false [] [Sample.bump]
    (Sample.one_ticket true) t Sample.build_issue
  = ([EvPrint (MsgEvaluatingIssue "OPS-1");
      EvUpdate "OPS-1" [("summary", "Build v1.3 failed")]],
     Sample.one_ticket true, Raise sys_unbound).
Proof. vm_compute. reflexivity. Qed.

(** A repeat count [re.compile] cannot hold: the [OverflowError] is not
    an [re.error], line 23 does not catch it and it ends the call. *)
Example overflowing_pattern_is_not_caught :
  Sample.run "project = OPS" [Sample.bump] [Sample.status_open; Sample.overflowing]
    false (Sample.one_ticket false)
  = ([], Sample.one_ticket false, Raised OverflowError).
Proof. vm_compute. reflexivity. Qed.

(** C5 at a test of [__doc__] against [sequence] on an issue whose
    [__doc__] holds a text without it: the test does not pass on the
    issue, yet line 46 matches the pattern against the documentation of
    the list of names, lets the issue through, and the issue is
    updated. *)
Theorem update_without_matching_test :
  fields Sample.doc_issue !! "__doc__" = Some (PyStr "fields of an issue") /\
  re_search Sample.externals "sequence" "fields of an issue" = false /\
  ~ test_passes Sample.externals Sample.doc_issue "__doc__" "sequence" /\
  (let '(tr, _, out) :=
     Sample.run "project = OPS" [Sample.bump] [Sample.doc_sequence] false
       Sample.doc_ticket in
   tr = [EvSearch "project = OPS"; EvPrint (MsgEvaluating 1);
         EvPrint (MsgEvaluatingIssue "OPS-4");
         EvUpdate "OPS-4" [("summary", "Build v1.3 failed")];
         EvPrint (MsgUpdated "OPS-4" ["summary"]);
         EvPrint (MsgSummary (incr_changed (initial_tallies 1)))] /\
   out = Returned None).
Proof.
  split; [vm_compute; reflexivity | split; [vm_compute; reflexivity | split]].
  - intros (text & Hf & Hm). vm_compute in Hf. injection Hf as <-.
    vm_compute in Hm. discriminate.
  - vm_compute. split; reflexivity.
Qed.


(** * Further properties of the routine *)

(** ** The pre-flight and the search *)

Section Preflight.

Variable X : Externals.

(** X1.  The pre-flight of lines 19-28 lets the call go on exactly when no
    test is malformed.  It then hands the loop, for each test and in
    order, the matcher [re.compile] made of the pattern of that very
    test, under its field name.  Otherwise it ends the call at the first
    malformed test, with the error of that test: the [NameError] on
    [sys] when the [regex] key is missing or [re.compile] raised
    [re.error], and what [re.compile] raised when it is another
    exception, which line 23 does not catch. *)
Theorem preflight_passes_iff_no_test_malformed (additional_tests : list Test) :
  ((exists cs, precompile X additional_tests = Ok cs) <->
   (forall t, In t additional_tests -> ~ malformed X t)) /\
  (forall cs, precompile X additional_tests = Ok cs ->
     Forall2 (fun t c => fst c = test_field_name t /\
                         exists p, test_regex t = Some p /\
                                   re_compile X p = Compiled (snd c))
             additional_tests cs) /\
  (forall pre t post,
     additional_tests = pre ++ t :: post ->
     (forall t', In t' pre -> ~ malformed X t') ->
     malformed X t ->
     precompile X additional_tests = Raise (preflight_error X t)).
Proof.
  split; [split | split].
  - intros [cs Hcs] t Hin Hbad.
    apply (precompile_malformed X additional_tests cs); [now exists t | exact Hcs].
  - induction additional_tests as [|t ts IH]; intros Hall; [now exists [] |].
    simpl. pose proof (Hall t (or_introl eq_refl)) as Ht. unfold malformed in Ht.
    destruct (test_regex t) as [p|]; [|now destruct Ht].
    destruct (re_compile X p) as [r| |e]; try now destruct Ht.
    destruct IH as [cs Hcs]; [intros t' Hin; apply Hall; now right |].
    rewrite Hcs. eauto.
  - intros cs Hcs. now apply precompile_Ok.
  - intros pre t post -> Hpre Hbad. now apply precompile_first_malformed.
Qed.

Lemma filter_nil_not_In (p : event -> bool) (l : list event) (x : event) :
  List.filter p l = [] -> In x l -> p x = false.
Proof.
  intros Hnil Hin. destruct (p x) eqn:E; [|reflexivity].
  assert (H : In x (List.filter p l)) by (apply List.filter_In; now split).
  rewrite Hnil in H. destruct H.
Qed.

(** X2.  In every call the store is searched at most once, with the query
    of the caller, and nothing is printed or updated before the search:
    a trace that is not empty starts with it. *)
Theorem search_is_first_and_only (issue_jql : string)
    (replacements : list Replacement) (additional_tests : list Test)
    (dry_run : bool) (store : Store X) :
  let '(tr, _, _) :=
    find_and_replace X issue_jql replacements additional_tests dry_run store in
  length (List.filter is_search tr) <= 1 /\
  (forall q, In (EvSearch q) tr -> q = issue_jql) /\
  (tr <> [] -> hd_error tr = Some (EvSearch issue_jql)).
Proof.
  unfold find_and_replace.
  destruct (precompile X additional_tests) as [cs|e].
  2:{ repeat split; [simpl; lia | intros q [] | intros H; now destruct H]. }
  destruct (search_issues X store issue_jql) as [s1 [err|issues]].
  { repeat split; [simpl; lia |].
    intros q [H|[]]. now injection H. }
  destruct (process_issues X dry_run cs replacements s1
              (initial_tallies (length issues)) issues) as [[evs s2] r] eqn:Ep.
  destruct (process_issues_events X _ _ _ _ _ _ _ _ _ Ep) as (_ & Hs & _ & _).
  assert (Hq : forall q, ~ In (EvSearch q) evs).
  { intros q Hin. now pose proof (filter_nil_not_In is_search evs _ Hs Hin). }
  destruct r as [t|e]; (split; [|split]).
  - rewrite !List.filter_app, Hs. simpl. lia.
  - simpl. intros q [H|[H|H]]; [now injection H | discriminate |].
    apply in_app_or in H as [H|[H|[]]]; [now apply Hq in H | discriminate].
  - reflexivity.
  - rewrite List.filter_app, Hs. simpl. lia.
  - simpl. intros q [H|[H|H]]; [now injection H | discriminate | now apply Hq in H].
  - reflexivity.
Qed.

(** A step that makes no update call leaves the store as it was. *)
Lemma process_issues_store (dry_run : bool) (tests : list (string * regex X))
    (reps : list Replacement) (issues : list Issue) (store store' : Store X)
    (t : Tallies) (evs : list event) (r : res Tallies) :
  process_issues X dry_run tests reps store t issues = (evs, store', r) ->
  update_calls evs = [] -> store' = store.
Proof.
  revert store store' t evs r.
  induction issues as [|i issues IH]; intros store store' t evs r H Hno; simpl in H.
  - now injection H as _ <- _.
  - destruct (process_issue X dry_run tests reps store t i) as [[e1 s1] r1] eqn:E1.
    destruct (process_issue_shape X _ _ _ _ _ _ _ _ _ E1)
      as (w & tail & -> & Hw & _ & Hst).
    destruct r1 as [t1|e].
    + destruct (process_issues X dry_run tests reps s1 t1 issues)
        as [[e2 s2] r2] eqn:E2.
      injection H as <- <- <-.
      rewrite (app_comm_cons (w ++ tail) e2) in Hno.
      change (EvPrint (MsgEvaluatingIssue (key i)) :: w ++ tail)
        with ([EvPrint (MsgEvaluatingIssue (key i))] ++ w ++ tail) in Hno.
      rewrite !update_calls_app, (plain_output_updates w Hw) in Hno. simpl in Hno.
      apply app_eq_nil in Hno as [Ht He2].
      rewrite (IH _ _ _ _ _ E2 He2). now apply Hst.
    + injection H as <- <- <-.
      change (EvPrint (MsgEvaluatingIssue (key i)) :: w ++ tail)
        with ([EvPrint (MsgEvaluatingIssue (key i))] ++ w ++ tail) in Hno.
      rewrite !update_calls_app, (plain_output_updates w Hw) in Hno. simpl in Hno.
      now apply Hst.
Qed.

(** X3.  A dry run never calls [issue.update], whatever the tests, the
    replacements and the store: its trace has no update call, and the
    store is left as the search left it (or untouched, when the
    pre-flight stopped the call). *)
Theorem dry_run_never_updates (issue_jql : string)
    (replacements : list Replacement) (additional_tests : list Test)
    (store : Store X) :
  let '(tr, store', _) :=
    find_and_replace X issue_jql replacements additional_tests true store in
  update_calls tr = [] /\
  (store' = store \/ store' = fst (search_issues X store issue_jql)).
Proof.
  unfold find_and_replace.
  destruct (precompile X additional_tests) as [cs|e]; [|now split; [|left]].
  destruct (search_issues X store issue_jql) as [s1 [err|issues]];
    [now split; [|right] |].
  destruct (process_issues X true cs replacements s1
              (initial_tallies (length issues)) issues) as [[evs s2] r] eqn:Ep.
  destruct (process_issues_updates X _ _ _ _ _ _ _ _ _ Ep) as (u & _ & Hu & Hf).
  assert (Hno : update_calls evs = []).
  { destruct u as [|i u]; [exact Hu |].
    inversion Hf as [|? ? (Hd & _) _]. discriminate. }
  pose proof (process_issues_store _ _ _ _ _ _ _ _ _ Ep Hno) as ->.
  destruct r; simpl; rewrite ?update_calls_app, Hno; split; auto.
Qed.

(** The loop of lines 37-89 treats the issues one after the other and
    nothing else links them: running it on [l1 ++ l2] is running it on
    [l1], then on [l2] from the store and the counters [l1] left. *)
Lemma process_issues_app (dry_run : bool) (tests : list (string * regex X))
    (reps : list Replacement) (l1 l2 : list Issue) (store : Store X) (t : Tallies) :
  process_issues X dry_run tests reps store t (l1 ++ l2) =
    let '(e1, s1, r1) := process_issues X dry_run tests reps store t l1 in
    match r1 with
    | Raise e => (e1, s1, Raise e)
    | Ok t1 =>
        let '(e2, s2, r2) := process_issues X dry_run tests reps s1 t1 l2 in
        (e1 ++ e2, s2, r2)
    end.
Proof.
  revert store t. induction l1 as [|i l1 IH]; intros store t; simpl.
  - now destruct (process_issues X dry_run tests reps store t l2) as [[e2 s2] r2].
  - destruct (process_issue X dry_run tests reps store t i) as [[e0 s0] [t0|e]];
      [|reflexivity].
    rewrite IH.
    destruct (process_issues X dry_run tests reps s0 t0 l1) as [[e1 s1] [t1|e]];
      [|reflexivity].
    destruct (process_issues X dry_run tests reps s1 t1 l2) as [[e2 s2] r2].
    now rewrite app_assoc.
Qed.

End Preflight.

(** ** The change-set *)

Section Staging.

Lemma dict_get_set_eq (d : changeset) (k v : string) :
  dict_get (dict_set d k v) k = Some v.
Proof.
  induction d as [|[k' v'] d IH]; simpl.
  - now rewrite String.eqb_refl.
  - destruct (String.eqb k k') eqn:E; simpl.
    + now rewrite String.eqb_refl.
    + now rewrite E.
Qed.

Lemma dict_get_set_ne (d : changeset) (k k0 v : string) :
  k0 <> k -> dict_get (dict_set d k v) k0 = dict_get d k0.
Proof.
  intros Hne. induction d as [|[k' v'] d IH]; simpl.
  - now apply String.eqb_neq in Hne as ->.
  - destruct (String.eqb_spec k k') as [<-|Hk]; simpl.
    + now apply String.eqb_neq in Hne as ->.
    + now rewrite IH.
Qed.

Lemma dict_set_In (d : changeset) (k v : string) (kv : string * string) :
  In kv (dict_set d k v) -> kv = (k, v) \/ In kv d.
Proof.
  induction d as [|[k' v'] d IH]; simpl.
  - intros [<-|[]]. now left.
  - destruct (String.eqb k k'); simpl.
    + intros [<-|H]; [now left | now right; right].
    + intros [<-|H]; [now right; left |].
      destruct (IH H) as [->|H']; [now left | now right; right].
Qed.

Lemma dict_set_keys (d : changeset) (k v : string) :
  forall k0, In k0 (map fst (dict_set d k v)) -> k0 = k \/ In k0 (map fst d).
Proof.
  intros k0 H. apply in_map_iff in H as ([k1 v1] & <- & Hin).
  apply dict_set_In in Hin as [E|Hin]; [injection E as -> _; now left |].
  right. apply in_map_iff. now exists (k1, v1).
Qed.

Lemma dict_set_NoDup (d : changeset) (k v : string) :
  List.NoDup (map fst d) -> List.NoDup (map fst (dict_set d k v)).
Proof.
  induction d as [|[k' v'] d IH]; simpl; intros Hnd.
  - constructor; [intros [] | constructor].
  - inversion Hnd as [|? ? Hnotin Hnd']; subst.
    destruct (String.eqb_spec k k') as [->|Hk]; simpl.
    + now constructor.
    + constructor; [|now apply IH].
      intros Hin. apply dict_set_keys in Hin as [E|Hin]; [congruence | contradiction].
Qed.

Lemma fields_present_lookup (issue : Issue) (reps : list Replacement) :
  replacement_fields reps ⊆ dom (fields issue) ->
  forall rp, In rp reps -> exists x, fields issue !! rep_field_name rp = Some x.
Proof.
  induction reps as [|rp0 reps IH]; intros Hsub rp Hin; [destruct Hin |].
  unfold replacement_fields in Hsub. simpl in Hsub.
  apply union_subseteq in Hsub as [H0 Hrest].
  destruct Hin as [<-|Hin].
  - apply singleton_subseteq_l in H0. now apply elem_of_dom in H0.
  - now apply IH.
Qed.

(** Staging a list of rules in two parts. *)
Lemma stage_changes_app (issue : Issue) (l1 l2 : list Replacement) (acc : changeset) :
  stage_changes issue (l1 ++ l2) acc =
    let '(w1, r1) := stage_changes issue l1 acc in
    match r1 with
    | Raise e => (w1, Raise e)
    | Ok c1 => let '(w2, r2) := stage_changes issue l2 c1 in (w1 ++ w2, r2)
    end.
Proof.
  revert acc. induction l1 as [|rp l1 IH]; intros acc; simpl.
  - now destruct (stage_changes issue l2 acc).
  - destruct (fields issue !! rep_field_name rp) as [[v|]|]; [| |reflexivity].
    + destruct (String.eqb v _); apply IH.
    + rewrite IH. destruct (stage_changes issue l1 acc) as [w1 [c1|e]]; [|reflexivity].
      now destruct (stage_changes issue l2 c1).
Qed.

(** Rules that leave the text of a field alone leave its entry alone. *)
Lemma stage_changes_untouched (issue : Issue) (reps : list Replacement)
    (acc ch : changeset) (w : list event) (f v : string) :
  stage_changes issue reps acc = (w, Ok ch) ->
  fields issue !! f = Some (PyStr v) ->
  (forall rp, In rp reps -> rep_field_name rp = f ->
              str_replace v (rep_old rp) (rep_new rp) = v) ->
  dict_get ch f = dict_get acc f.
Proof.
  revert acc w. induction reps as [|rp reps IH]; intros acc w H Hf Hall; simpl in H.
  - now injection H as _ <-.
  - assert (Hrest : forall rp', In rp' reps -> rep_field_name rp' = f ->
                      str_replace v (rep_old rp') (rep_new rp') = v)
      by (intros rp' Hin; apply Hall; now right).
    destruct (fields issue !! rep_field_name rp) as [[v0|]|] eqn:E0; [| |discriminate].
    + destruct (String.eqb_spec v0 (str_replace v0 (rep_old rp) (rep_new rp))) as [E|E].
      * exact (IH _ _ H Hf Hrest).
      * rewrite (IH _ _ H Hf Hrest). apply dict_get_set_ne.
        intros Heq. rewrite <- Heq, Hf in E0. injection E0 as <-.
        apply E. symmetry. apply Hall; [now left | now symmetry].
    + destruct (stage_changes issue reps acc) as [evs r] eqn:Es.
      injection H as _ ->. exact (IH _ _ Es Hf Hrest).
Qed.

(** X5.  Rules on the same field do not build on one another: each reads
    the text the issue was fetched with, and the last rule that changes
    it decides the staged value.  With every replacement field on the
    issue, if [rp] changes the text [v] of its field and no later rule on
    that field changes [v], the change-set holds for the field what [rp]
    makes of [v], whatever the earlier rules staged. *)
Theorem last_changing_rule_wins (issue : Issue) (pre post : list Replacement)
    (rp : Replacement) (v : string) :
  replacement_fields (pre ++ rp :: post) ⊆ dom (fields issue) ->
  fields issue !! rep_field_name rp = Some (PyStr v) ->
  str_replace v (rep_old rp) (rep_new rp) <> v ->
  (forall rp', In rp' post -> rep_field_name rp' = rep_field_name rp ->
               str_replace v (rep_old rp') (rep_new rp') = v) ->
  dict_get (staged_changes issue (pre ++ rp :: post)) (rep_field_name rp)
    = Some (str_replace v (rep_old rp) (rep_new rp)).
Proof.
  intros Hsub Hf Hch Hpost.
  destruct (stage_changes_present issue _ [] Hsub) as [ch Hok].
  unfold staged_changes.
  destruct (stage_changes issue (pre ++ rp :: post) []) as [w rs] eqn:Es.
  simpl in Hok. subst rs.
  rewrite stage_changes_app in Es.
  destruct (stage_changes issue pre []) as [w1 [c1|e]]; [|discriminate].
  simpl in Es. rewrite Hf in Es.
  apply String.eqb_neq in Hch. rewrite String.eqb_sym in Hch. rewrite Hch in Es.
  destruct (stage_changes issue post
              (dict_set c1 (rep_field_name rp)
                 (str_replace v (rep_old rp) (rep_new rp)))) as [w2 r2] eqn:E2.
  injection Es as _ ->.
  rewrite (stage_changes_untouched _ _ _ _ _ _ _ E2 Hf Hpost).
  apply dict_get_set_eq.
Qed.

Lemma stage_changes_provenance (issue : Issue) (all reps : list Replacement)
    (acc ch : changeset) (w : list event) :
  let Q := fun kv : string * string =>
             exists rp v, In rp all /\ rep_field_name rp = fst kv /\
                          fields issue !! fst kv = Some (PyStr v) /\
                          snd kv = str_replace v (rep_old rp) (rep_new rp) /\
                          snd kv <> v in
  (forall rp, In rp reps -> In rp all) ->
  stage_changes issue reps acc = (w, Ok ch) ->
  List.NoDup (map fst acc) /\ Forall Q acc ->
  List.NoDup (map fst ch) /\ Forall Q ch.
Proof.
  intros Q. revert acc w.
  induction reps as [|rp reps IH]; intros acc w Hincl H Hacc; simpl in H.
  - now injection H as _ <-.
  - assert (Hincl' : forall rp', In rp' reps -> In rp' all)
      by (intros rp' Hin; apply Hincl; now right).
    destruct (fields issue !! rep_field_name rp) as [[v|]|] eqn:Ef; [| |discriminate].
    + destruct (String.eqb_spec v (str_replace v (rep_old rp) (rep_new rp))) as [E|E].
      * exact (IH _ _ Hincl' H Hacc).
      * apply (IH _ _ Hincl' H). destruct Hacc as [Hnd HQ]. split.
        -- now apply dict_set_NoDup.
        -- apply dict_set_Forall; [|exact HQ].
           exists rp, v. simpl. repeat split; auto. now apply Hincl; left.
    + destruct (stage_changes issue reps acc) as [evs r] eqn:Es.
      injection H as _ ->. exact (IH _ _ Hincl' Es Hacc).
Qed.

(** X6.  What goes into an update: the change-set names no field twice,
    and each of its entries is the text some replacement of the list
    makes of the string its field holds on the issue, and differs from
    that string.  A field that holds no string, or that no replacement
    names, is never part of it. *)
Theorem staged_entries_come_from_rules (issue : Issue) (reps : list Replacement) :
  List.NoDup (map fst (staged_changes issue reps)) /\
  (forall k v', In (k, v') (staged_changes issue reps) ->
     exists rp v, In rp reps /\ rep_field_name rp = k /\
                  fields issue !! k = Some (PyStr v) /\
                  v' = str_replace v (rep_old rp) (rep_new rp) /\
                  v' <> v).
Proof.
  unfold staged_changes.
  destruct (stage_changes issue reps []) as [w [ch|e]] eqn:Es.
  - destruct (stage_changes_provenance issue reps reps [] ch w (fun _ H => H) Es)
      as [Hnd HQ]; [split; constructor |].
    split; [exact Hnd |]. intros k v' Hin.
    rewrite List.Forall_forall in HQ. exact (HQ (k, v') Hin).
  - split; [constructor | intros k v' []].
Qed.

Lemma stage_changes_skips_nontext (issue : Issue) (reps : list Replacement)
    (acc : changeset) :
  (forall rp, In rp reps -> exists x, fields issue !! rep_field_name rp = Some x) ->
  stage_changes issue reps acc =
    (map (nonstr_warning issue) (List.filter (on_other issue) reps),
     snd (stage_changes issue
            (List.filter (fun rp => negb (on_other issue rp)) reps) acc)).
Proof.
  revert acc. induction reps as [|rp reps IH]; intros acc Hpres; [reflexivity |].
  assert (Hrest : forall rp', In rp' reps ->
                    exists x, fields issue !! rep_field_name rp' = Some x)
    by (intros rp' Hin; apply Hpres; now right).
  destruct (Hpres rp (or_introl eq_refl)) as [x Hx].
  simpl List.filter. destruct x as [v|].
  - assert (Ho : on_other issue rp = false) by (unfold on_other; now rewrite Hx).
    rewrite Ho. simpl. rewrite Hx.
    destruct (String.eqb v (str_replace v (rep_old rp) (rep_new rp)));
      now apply IH.
  - assert (Ho : on_other issue rp = true) by (unfold on_other; now rewrite Hx).
    rewrite Ho. simpl. rewrite Hx, (IH acc Hrest). reflexivity.
Qed.

(** X7.  A replacement on a field that holds no string costs one warning
    (line 72) and nothing else: with every replacement field on the
    issue, the staging prints one warning for each such replacement, in
    order, and stages what the other replacements alone would stage. *)
Theorem nontext_rules_only_warn (issue : Issue) (reps : list Replacement) :
  replacement_fields reps ⊆ dom (fields issue) ->
  stage_changes issue reps [] =
    (map (nonstr_warning issue) (List.filter (on_other issue) reps),
     Ok (staged_changes issue
           (List.filter (fun rp => negb (on_other issue rp)) reps))).
Proof.
  intros Hsub.
  pose proof (stage_changes_skips_nontext issue reps []
                (fields_present_lookup issue reps Hsub)) as HA.
  destruct (stage_changes_present issue reps [] Hsub) as [ch Hok].
  rewrite HA in Hok. simpl in Hok. rewrite HA. f_equal.
  unfold staged_changes.
  destruct (stage_changes issue
              (List.filter (fun rp => negb (on_other issue rp)) reps) [])
    as [w r]. simpl in *. now subst r.
Qed.

End Staging.

(** ** The outcome of an issue and of a run *)

Section Outcomes.

Variable X : Externals.

(** X4.  Nothing is rolled back and nothing is retried: when the loop gets
    through the issues [pre] and the next issue raises, the loop ends
    with that exception; the output and the update calls made for [pre]
    stay as they are, followed by those of the failing issue, and no
    issue behind it is looked at. *)
Theorem exception_keeps_earlier_updates (dry_run : bool)
    (tests : list (string * regex X)) (reps : list Replacement)
    (pre post : list Issue) (bad : Issue) (store s1 s2 : Store X)
    (t t1 : Tallies) (e1 e2 : list event) (e : exn) :
  process_issues X dry_run tests reps store t pre = (e1, s1, Ok t1) ->
  process_issue X dry_run tests reps s1 t1 bad = (e2, s2, Raise e) ->
  process_issues X dry_run tests reps store t (pre ++ bad :: post)
    = (e1 ++ e2, s2, Raise e).
Proof.
  intros Hpre Hbad. rewrite process_issues_app, Hpre. simpl. now rewrite Hbad.
Qed.



(** The counters against the issues and the trace of the loop. *)
Lemma process_issues_counts (dry_run : bool) (tests : list (string * regex X))
    (reps : list Replacement) (issues : list Issue) (store store' : Store X)
    (t t' : Tallies) (evs : list event) :
  process_issues X dry_run tests reps store t issues = (evs, store', Ok t') ->
  issues_failed_tests t' =
    issues_failed_tests t + length (List.filter (fails_tests X tests) issues) /\
  changed_issues t' = changed_issues t + length (update_calls evs) /\
  unchanged_issues t' =
    unchanged_issues t + length (List.filter (passes_unchanged X tests reps) issues).
Proof.
  revert store store' t evs.
  induction issues as [|i issues IH]; intros store store' t evs H; simpl in H.
  - injection H as <- _ <-. simpl. repeat split; lia.
  - destruct (process_issue X dry_run tests reps store t i) as [[e1 s1] r1] eqn:E1.
    destruct (process_issue_shape X _ _ _ _ _ _ _ _ _ E1)
      as (w & tail & -> & Hw & Hend & _).
    destruct r1 as [t1|e]; [|discriminate].
    destruct (process_issues X dry_run tests reps s1 t1 issues)
      as [[e2 s2] r2] eqn:E2.
    injection H as <- _ ->.
    destruct (IH _ _ _ _ E2) as (I1 & I2 & I3).
    rewrite I1, I2, I3.
    rewrite (app_comm_cons (w ++ tail) e2).
    change (EvPrint (MsgEvaluatingIssue (key i)) :: w ++ tail)
      with ([EvPrint (MsgEvaluatingIssue (key i))] ++ w ++ tail).
    rewrite !update_calls_app, (plain_output_updates w Hw).
    simpl List.filter. unfold fails_tests at 2, passes_unchanged at 2.
    inversion Hend as [ | Hr | Hr Hs | Hd Hr [Hn _] | Hd Hr [Hn _] | ]; subst;
      rewrite Hr; try rewrite Hs;
      try (destruct (staged_changes i reps) as [|kv ch]; [now destruct Hn |]);
      simpl; rewrite ?length_app; simpl; repeat split; lia.
Qed.

(** X10.  The summary line tells what happened.  In a call that prints it,
    the counter of selected issues is the number of fetched issues, the
    counter of failed tests is the number of fetched issues whose test
    loop ended without a match, the counter of changed issues is the
    number of update calls made, the counter of unchanged issues is the
    number of issues that passed with nothing to change, and the counter
    of failed issues is 0: no call that reports a failed issue ever
    prints its summary. *)
Theorem summary_counts_are_exact (issue_jql : string)
    (replacements : list Replacement) (additional_tests : list Test)
    (dry_run : bool) (store : Store X) (cs : list (string * regex X))
    (t : Tallies) :
  precompile X additional_tests = Ok cs ->
  In (EvPrint (MsgSummary t))
     (fst (fst (find_and_replace X issue_jql replacements additional_tests
                  dry_run store))) ->
  selected_issues t = length (fetched X store issue_jql) /\
  issues_failed_tests t =
    length (List.filter (fails_tests X cs) (fetched X store issue_jql)) /\
  changed_issues t =
    length (update_calls
              (fst (fst (find_and_replace X issue_jql replacements
                           additional_tests dry_run store)))) /\
  unchanged_issues t =
    length (List.filter (passes_unchanged X cs replacements)
              (fetched X store issue_jql)) /\
  failed_issues t = 0.
Proof.
  intros Hc Hin. unfold find_and_replace, fetched in *. rewrite Hc in *.
  destruct (search_issues X store issue_jql) as [s1 [err|issues]].
  { destruct Hin as [H|[]]. discriminate. }
  destruct (process_issues X dry_run cs replacements s1
              (initial_tallies (length issues)) issues) as [[evs s2] r] eqn:Ep.
  destruct (process_issues_events X _ _ _ _ _ _ _ _ _ Ep) as (Hsum & _ & _ & _).
  assert (Hnot : ~ In (EvPrint (MsgSummary t)) evs).
  { intros H. now pose proof (filter_nil_not_In is_summary evs _ Hsum H). }
  destruct r as [t0|e]; simpl in Hin.
  - destruct Hin as [H|[H|H]]; try discriminate.
    apply in_app_or in H as [H|[H|[]]]; [contradiction |].
    injection H as ->.
    destruct (process_issues_tallies X _ _ _ _ _ _ _ _ _ Ep) as (T1 & T2 & _ & _).
    destruct (process_issues_counts _ _ _ _ _ _ _ _ _ Ep) as (C1 & C2 & C3).
    simpl. rewrite !update_calls_app. simpl. rewrite app_nil_r.
    rewrite T1, T2, C1, C2, C3. simpl. repeat split; lia.
  - destruct Hin as [H|[H|H]]; try discriminate. contradiction.
Qed.

Lemma process_issues_completes (dry_run : bool) (tests : list (string * regex X))
    (reps : list Replacement) (issues : list Issue) (store : Store X) (t : Tallies) :
  Forall (fun i => (exists b, run_tests X i tests = Ok b) /\
                   replacement_fields reps ⊆ dom (fields i)) issues ->
  (dry_run = true \/ forall s i c, snd (issue_update X s i c) = None) ->
  exists evs s' t',
    process_issues X dry_run tests reps store t issues = (evs, s', Ok t').
Proof.
  intros Hall Hup. revert store t.
  induction Hall as [|i issues ([b Hb] & Hsub) _ IH]; intros store t; simpl.
  - now exists [], store, t.
  - assert (Hone : exists e1 s1 t1,
              process_issue X dry_run tests reps store t i = (e1, s1, Ok t1)).
    { unfold process_issue. rewrite Hb. destruct b; [|eauto].
      rewrite (bool_decide_eq_true_2 _ Hsub). simpl negb. cbv iota.
      destruct (stage_changes_present i reps [] Hsub) as [ch Hok].
      destruct (stage_changes i reps []) as [w rs]. simpl in Hok. subst rs.
      unfold apply_changes. destruct ch as [|kv ch]; [eauto |].
      destruct Hup as [-> | Hup]; [eauto |].
      specialize (Hup store i (kv :: ch)).
      destruct (issue_update X store i (kv :: ch)) as [s1 r]. simpl in Hup.
      subst r. destruct dry_run; eauto. }
    destruct Hone as (e1 & s1 & t1 & ->).
    destruct (IH s1 t1) as (e2 & s2 & t2 & ->). eauto.
Qed.

(** X11.  What it takes for a call to reach its summary: the pre-flight
    passes, the search answers, on every fetched issue the test loop
    comes to a verdict and every replacement field is there, and the
    call is a dry run or the store takes every update.  The call then
    prints the summary as its last line and ends normally. *)
Theorem run_completes_when_nothing_raises (issue_jql : string)
    (replacements : list Replacement) (additional_tests : list Test)
    (dry_run : bool) (store s1 : Store X) (cs : list (string * regex X))
    (issues : list Issue) :
  precompile X additional_tests = Ok cs ->
  search_issues X store issue_jql = (s1, inr issues) ->
  Forall (fun i => (exists b, run_tests X i cs = Ok b) /\
                   replacement_fields replacements ⊆ dom (fields i)) issues ->
  (dry_run = true \/ forall s i c, snd (issue_update X s i c) = None) ->
  exists pre s' t,
    find_and_replace X issue_jql replacements additional_tests dry_run store
      = (pre ++ [EvPrint (MsgSummary t)], s', Returned None).
Proof.
  intros Hc Hs Hall Hup. unfold find_and_replace. rewrite Hc, Hs.
  destruct (process_issues_completes dry_run cs replacements issues s1
              (initial_tallies (length issues)) Hall Hup) as (evs & s' & t & ->).
  exists ([EvSearch issue_jql; EvPrint (MsgEvaluating (length issues))] ++ evs), s', t.
  now rewrite <- app_assoc.
Qed.


End Outcomes.

(** ** Closed instances of the further properties *)

Ltac fields_present :=
  match goal with
  | |- ?P => apply (bool_decide_eq_true_1 P); vm_compute; reflexivity
  end.

(** The dot rule stages a value first; the version bump, which comes
    later, reads the fetched summary and decides. *)
Lemma last_changing_rule_wins_witness :
  replacement_fields ([Sample.dot_star] ++ Sample.bump :: [Sample.absent_rule])
    ⊆ dom (fields Sample.build_issue) /\
  fields Sample.build_issue !! rep_field_name Sample.bump
    = Some (PyStr "Build v1.2 failed") /\
  str_replace "Build v1.2 failed" (rep_old Sample.bump) (rep_new Sample.bump)
    <> "Build v1.2 failed" /\
  (forall rp', In rp' [Sample.absent_rule] ->
     rep_field_name rp' = rep_field_name Sample.bump ->
     str_replace "Build v1.2 failed" (rep_old rp') (rep_new rp')
       = "Build v1.2 failed") /\
  dict_get (staged_changes Sample.build_issue
              ([Sample.dot_star] ++ Sample.bump :: [Sample.absent_rule]))
           (rep_field_name Sample.bump)
    = Some "Build v1.3 failed".
Proof.
  assert (H1 : replacement_fields
                 ([Sample.dot_star] ++ Sample.bump :: [Sample.absent_rule])
                 ⊆ dom (fields Sample.build_issue)) by fields_present.
  assert (H2 : fields Sample.build_issue !! rep_field_name Sample.bump
               = Some (PyStr "Build v1.2 failed")) by (vm_compute; reflexivity).
  assert (H3 : str_replace "Build v1.2 failed" (rep_old Sample.bump)
                 (rep_new Sample.bump) <> "Build v1.2 failed")
    by (vm_compute; discriminate).
  assert (H4 : forall rp', In rp' [Sample.absent_rule] ->
                 rep_field_name rp' = rep_field_name Sample.bump ->
                 str_replace "Build v1.2 failed" (rep_old rp') (rep_new rp')
                   = "Build v1.2 failed").
  { intros rp' [<-|[]] _. vm_compute. reflexivity. }
  repeat (split; [assumption |]).
  exact (last_changing_rule_wins Sample.build_issue [Sample.dot_star]
           [Sample.absent_rule] Sample.bump "Build v1.2 failed" H1 H2 H3 H4).
Defined.

(** The assignee of OPS-1 is no string: one warning, and the bump alone
    is staged. *)
Lemma nontext_rules_only_warn_witness :
  replacement_fields [Sample.assignee_rule; Sample.bump]
    ⊆ dom (fields Sample.build_issue) /\
  stage_changes Sample.build_issue [Sample.assignee_rule; Sample.bump] []
    = ([EvPrint (MsgNonStr "OPS-1" "assignee")],
       Ok [("summary", "Build v1.3 failed")]).
Proof.
  assert (H1 : replacement_fields [Sample.assignee_rule; Sample.bump]
                 ⊆ dom (fields Sample.build_issue)) by fields_present.
  split; [exact H1 |].
  exact (nontext_rules_only_warn Sample.build_issue
           [Sample.assignee_rule; Sample.bump] H1).
Defined.

(** OPS-3 is got through, OPS-1 meets a store that refuses its update,
    OPS-2 is never looked at. *)
Lemma exception_keeps_earlier_updates_witness :
  process_issues Sample.externals false [] [Sample.bump] (Sample.one_ticket true)
    (initial_tallies 3) [Sample.letter_issue]
    = ([EvPrint (MsgEvaluatingIssue "OPS-3")], Sample.one_ticket true,
       Ok (incr_unchanged (initial_tallies 3))) /\
  process_issue Sample.externals false [] [Sample.bump] (Sample.one_ticket true)
    (incr_unchanged (initial_tallies 3)) Sample.build_issue
    = ([EvPrint (MsgEvaluatingIssue "OPS-1");
        EvUpdate "OPS-1" [("summary", "Build v1.3 failed")]],
       Sample.one_ticket true, Raise sys_unbound) /\
  process_issues Sample.externals false [] [Sample.bump] (Sample.one_ticket true)
    (initial_tallies 3)
    ([Sample.letter_issue] ++ Sample.build_issue :: [Sample.deploy_issue])
    = ([EvPrint (MsgEvaluatingIssue "OPS-3")]
         ++ [EvPrint (MsgEvaluatingIssue "OPS-1");
             EvUpdate "OPS-1" [("summary", "Build v1.3 failed")]],
       Sample.one_ticket true, Raise sys_unbound).
Proof.
  assert (H1 : process_issues Sample.externals false [] [Sample.bump]
                 (Sample.one_ticket true) (initial_tallies 3) [Sample.letter_issue]
               = ([EvPrint (MsgEvaluatingIssue "OPS-3")], Sample.one_ticket true,
                  Ok (incr_unchanged (initial_tallies 3))))
    by (vm_compute; reflexivity).
  assert (H2 : process_issue Sample.externals false [] [Sample.bump]
                 (Sample.one_ticket true) (incr_unchanged (initial_tallies 3))
                 Sample.build_issue
               = ([EvPrint (MsgEvaluatingIssue "OPS-1");
                   EvUpdate "OPS-1" [("summary", "Build v1.3 failed")]],
                  Sample.one_ticket true, Raise sys_unbound))
    by (vm_compute; reflexivity).
  split; [exact H1 | split; [exact H2 |]].
  exact (exception_keeps_earlier_updates Sample.externals false [] [Sample.bump]
           [Sample.letter_issue] [Sample.deploy_issue] Sample.build_issue
           _ _ _ _ _ _ _ _ H1 H2).
Defined.



(** The summary of the call that updates OPS-1. *)
Lemma summary_counts_are_exact_witness :
  precompile Sample.externals [] = Ok [] /\
  In (EvPrint (MsgSummary (incr_changed (initial_tallies 1))))
     (fst (fst (find_and_replace Sample.externals "project = OPS" [Sample.bump] []
                  false (Sample.one_ticket false)))) /\
  selected_issues (incr_changed (initial_tallies 1))
    = length (fetched Sample.externals (Sample.one_ticket false) "project = OPS") /\
  issues_failed_tests (incr_changed (initial_tallies 1))
    = length (List.filter (fails_tests Sample.externals [])
                (fetched Sample.externals (Sample.one_ticket false) "project = OPS")) /\
  changed_issues (incr_changed (initial_tallies 1))
    = length (update_calls
                (fst (fst (find_and_replace Sample.externals "project = OPS"
                             [Sample.bump] [] false (Sample.one_ticket false))))) /\
  unchanged_issues (incr_changed (initial_tallies 1))
    = length (List.filter (passes_unchanged Sample.externals [] [Sample.bump])
                (fetched Sample.externals (Sample.one_ticket false) "project = OPS")) /\
  failed_issues (incr_changed (initial_tallies 1)) = 0.
Proof.
  assert (H1 : precompile Sample.externals [] = Ok []) by reflexivity.
  assert (H2 : In (EvPrint (MsgSummary (incr_changed (initial_tallies 1))))
                 (fst (fst (find_and_replace Sample.externals "project = OPS"
                              [Sample.bump] [] false (Sample.one_ticket false))))).
  { vm_compute. do 5 right. left. reflexivity. }
  split; [exact H1 | split; [exact H2 |]].
  exact (summary_counts_are_exact Sample.externals "project = OPS" [Sample.bump] []
           false (Sample.one_ticket false) [] (incr_changed (initial_tallies 1))
           H1 H2).
Defined.

(** A dry run over OPS-1 without tests. *)
Lemma run_completes_when_nothing_raises_witness :
  precompile Sample.externals [] = Ok [] /\
  search_issues Sample.externals (Sample.one_ticket false) "project = OPS"
    = (Sample.one_ticket false, inr [Sample.build_issue]) /\
  Forall (fun i => (exists b, run_tests Sample.externals i [] = Ok b) /\
                   replacement_fields [Sample.bump] ⊆ dom (fields i))
         [Sample.build_issue] /\
  (true = true \/
   forall s i c, snd (issue_update Sample.externals s i c) = None) /\
  (exists pre s' t,
     find_and_replace Sample.externals "project = OPS" [Sample.bump] [] true
       (Sample.one_ticket false)
     = (pre ++ [EvPrint (MsgSummary t)], s', Returned None)).
Proof.
  assert (H1 : precompile Sample.externals [] = Ok []) by reflexivity.
  assert (H2 : search_issues Sample.externals (Sample.one_ticket false)
                 "project = OPS"
               = (Sample.one_ticket false, inr [Sample.build_issue]))
    by reflexivity.
  assert (H3 : Forall (fun i => (exists b, run_tests Sample.externals i [] = Ok b) /\
                                replacement_fields [Sample.bump] ⊆ dom (fields i))
                      [Sample.build_issue]).
  { constructor; [|constructor]. split; [now exists true | fields_present]. }
  assert (H4 : true = true \/
               forall s i c, snd (issue_update Sample.externals s i c) = None)
    by (left; reflexivity).
  split; [exact H1 | split; [exact H2 | split; [exact H3 | split; [exact H4 |]]]].
  exact (run_completes_when_nothing_raises Sample.externals "project = OPS"
           [Sample.bump] [] true (Sample.one_ticket false) (Sample.one_ticket false)
           [] [Sample.build_issue] H1 H2 H3 H4).
Defined.

